(** * Note Organizer: the note repository of [noteApp.js]

    A shallow embedding of the command-line note organizer.  The notes
    array, the notes file, the answers typed at the prompts and the
    console are explicit state; the functions of [noteApp.js] become
    computations over that state.

    Strings.  A JavaScript string is a sequence of UTF-16 code units.
    The model covers the strings whose code units lie in U+0000..U+00FF
    (one [ascii] per code unit); on this range [toLowerCase] and [trim]
    are written out as ECMAScript defines them, and the range is closed
    under both. *)

From Stdlib Require Import NArith ZArith Ascii.
From stdpp Require Import base decidable option list strings.

(** ** Strings: the built-ins the program calls *)

Module JsString.

(** Code unit of a character. *)
Definition codeUnit (c : ascii) : N := N_of_ascii c.

(** [String.prototype.toLowerCase] on one code unit: A..Z and the
    Latin-1 capitals U+00C0..U+00DE (U+00D7, the multiplication sign,
    excepted) move up by 32; every other unit is its own lower case. *)
Definition lowerUnit (c : ascii) : ascii :=
  let n := codeUnit c in
  if ((65 <=? n) && (n <=? 90)
      || (192 <=? n) && (n <=? 222) && negb (n =? 215))%N
  then ascii_of_N (n + 32) else c.

Fixpoint toLowerCase (s : string) : string :=
  match s with
  | EmptyString => EmptyString
  | String c s' => String (lowerUnit c) (toLowerCase s')
  end.

(** WhiteSpace and LineTerminator code points below U+0100: TAB, LF,
    VT, FF, CR, SP and NBSP. *)
Definition isWhiteSpace (c : ascii) : bool :=
  let n := codeUnit c in
  ((9 <=? n) && (n <=? 13) || (n =? 32) || (n =? 160))%N.

Fixpoint trimStart (s : string) : string :=
  match s with
  | EmptyString => EmptyString
  | String c s' => if isWhiteSpace c then trimStart s' else s
  end.

Fixpoint trimEnd (s : string) : string :=
  match s with
  | EmptyString => EmptyString
  | String c s' =>
      match trimEnd s' with
      | EmptyString => if isWhiteSpace c then EmptyString
                       else String c EmptyString
      | t => String c t
      end
  end.

(** [String.prototype.trim]. *)
Definition trim (s : string) : string := trimEnd (trimStart s).

(** [q] is a prefix of [s]. *)
Fixpoint startsWith (s q : string) : bool :=
  match q, s with
  | EmptyString, _ => true
  | String _ _, EmptyString => false
  | String a q', String b s' => bool_decide (a = b) && startsWith s' q'
  end.

(** [s.includes(q)]: [q] occurs in [s] at some position. *)
Fixpoint includes (s q : string) : bool :=
  startsWith s q
  || match s with
     | EmptyString => false
     | String _ s' => includes s' q
     end.

(** First and last code unit are white space. *)
Definition leadingSpace (s : string) : bool :=
  match s with
  | EmptyString => false
  | String c _ => isWhiteSpace c
  end.

Fixpoint trailingSpace (s : string) : bool :=
  match s with
  | EmptyString => false
  | String c EmptyString => isWhiteSpace c
  | String _ s' => trailingSpace s'
  end.

End JsString.

Import JsString.

(** ** Notes *)

Record Note := mkNote { title : string; body : string; time_added : string }.

#[global] Instance Note_eq_dec : EqDecision Note.
Proof. solve_decision. Defined.

(** [note.body = newBody]. *)
Definition set_body (newBody : string) (n : Note) : Note :=
  {| title := title n; body := newBody; time_added := time_added n |}.

(** The two callbacks of [findNoteByTitle]. *)
Definition titleIs (query : string) (n : Note) : Prop :=
  toLowerCase (title n) = query.

Definition titleIncludes (query : string) (n : Note) : Prop :=
  includes (toLowerCase (title n)) query = true.

#[global] Instance titleIs_dec query n : Decision (titleIs query n).
Proof. unfold titleIs. apply _. Defined.

#[global] Instance titleIncludes_dec query n : Decision (titleIncludes query n).
Proof. unfold titleIncludes. apply _. Defined.

(** [findNoteByTitle(notes, titleInput)].  [Array.prototype.find] hands
    back the array's own object, so the result is kept together with the
    index it sits at; a note object is never falsy, so [||] falls to the
    second search exactly when the first finds nothing.  [None] is the
    [undefined] of the source. *)
Definition findNoteByTitle (notes : list Note) (titleInput : string)
  : option (nat * Note) :=
  let query := toLowerCase titleInput in
  match list_find (titleIs query) notes with
  | Some r => Some r
  | None => list_find (titleIncludes query) notes
  end.

(** ** The notes file *)

(** A JSON value, as [JSON.parse] builds it.  A number keeps its lexeme. *)
#[warnings="-register-all"]
Inductive json :=
  | JNull
  | JBool (b : bool)
  | JNumber (lexeme : string)
  | JString (s : string)
  | JArray (items : list json)
  | JObject (members : list (string * json)).

(** What [fs.readFileSync] followed by [JSON.parse] makes of the file's
    text: either the text can be read or reading throws, and text that
    can be read is either rejected by [JSON.parse] or has a value. *)
Inductive FileData :=
  | NotJson
  | Json (v : json).

Inductive File :=
  | Unreadable
  | Readable (data : FileData).

Definition JSON_parse (data : FileData) : option json :=
  match data with
  | NotJson => None
  | Json v => Some v
  end.

Definition json_of_note (n : Note) : json :=
  JObject [("title", JString (title n));
           ("body", JString (body n));
           ("time_added", JString (time_added n))].

(** The text [JSON.stringify(notes, null, 2)] produces, as file data. *)
Definition JSON_stringify (notes : list Note) : FileData :=
  Json (JArray (json_of_note <$> notes)).

(** ** The console *)

Inductive Prompt :=
  | AskTitle          (* 'Enter note title: ' *)
  | AskBody           (* 'Enter note body: ' *)
  | AskPart           (* 'Enter part of the note title: ' *)
  | AskPartToDelete   (* 'Enter part of the note title to delete: ' *)
  | AskPartToUpdate   (* 'Enter part of the note title to update: ' *)
  | AskNewBody        (* 'Enter new note body: ' *)
  | AskChoice         (* 'Enter your choice (1-6): ' *)
  | AskANoteTitle.    (* 'Enter a note title: ' *)

Inductive Msg :=
  | Asked (p : Prompt)
  | ErrorReading                    (* console.error, loadNotes *)
  | ErrorWriting                    (* console.error, saveNotes *)
  | TitleEmpty                      (* 'Title cannot be empty.' *)
  | TitleEmptyPleaseEnter           (* '... Please enter a valid title.' *)
  | AlreadyExists (ttl : string)    (* 'A note with the title "..." already exists.' *)
  | BodyEmpty                       (* 'Note body cannot be empty.' *)
  | Added                           (* 'Note added successfully!' *)
  | NoNotes                         (* 'No notes found.' *)
  | AllNotes                        (* 'All Notes:' *)
  | ItemTitle (i : nat) (ttl : string)
  | ItemBody (b : string)
  | ItemAdded (t : string)
  | TitleInputEmpty                 (* 'Title input cannot be empty.' *)
  | NotFound (titleInput : string)  (* 'No note found containing "..."' *)
  | ShowTitle (ttl : string)
  | ShowBody (b : string)
  | ShowAdded (t : string)
  | Deleted (ttl : string)          (* 'Note titled "..." deleted successfully!' *)
  | Updated                         (* 'Note updated successfully!' *)
  | MenuHeader
  | MenuItem (i : nat)
  | Goodbye
  | InvalidChoice.

(** ** The world and the computations over it *)

Record World := mkWorld {
  disk : option File;       (* the notes file; [None]: it does not exist *)
  writable : bool;          (* does [fs.writeFileSync] succeed *)
  input : list string;      (* the lines still to be typed *)
  output : list Msg         (* what was printed, oldest first *)
}.

Definition say (m : Msg) (w : World) : World :=
  {| disk := disk w; writable := writable w; input := input w;
     output := output w ++ [m] |}.

Definition with_input (lines : list string) (w : World) : World :=
  {| disk := disk w; writable := writable w; input := lines;
     output := output w |}.

Definition with_disk (f : File) (w : World) : World :=
  {| disk := Some f; writable := writable w; input := input w;
     output := output w |}.

(** A call returns a value, ends the process ([process.exit]), or waits
    for a line that is never typed. *)
Inductive Outcome (A : Type) :=
  | Return (a : A) (w : World)
  | Exit (code : Z) (w : World)
  | Blocked (w : World).
Arguments Return {A} a w.
Arguments Exit {A} code w.
Arguments Blocked {A} w.

Definition M (A : Type) : Type := World -> Outcome A.

#[global] Instance M_ret : MRet M := fun A a w => Return a w.

#[global] Instance M_bind : MBind M := fun A B k m w =>
  match m w with
  | Return a w' => k a w'
  | Exit code w' => Exit code w'
  | Blocked w' => Blocked w'
  end.

#[global] Instance M_fmap : FMap M := fun A B f m w =>
  match m w with
  | Return a w' => Return (f a) w'
  | Exit code w' => Exit code w'
  | Blocked w' => Blocked w'
  end.

Definition log (m : Msg) : M unit := fun w => Return tt (say m w).

Definition exit {A} (code : Z) : M A := fun w => Exit code w.

(** [readline.question(p)]: prints the prompt and reads one line. *)
Definition question (p : Prompt) : M string := fun w =>
  match input w with
  | [] => Blocked (say (Asked p) w)
  | line :: rest => Return line (with_input rest (say (Asked p) w))
  end.

(** The prompt loops of [addNote] and [getValidatedTitle]:
    [do { x = question(p).trim(); if (!x) console.log(m) } while (!x)].
    Every round reads one line, so the loop is a recursion on the lines
    still to be typed. *)
Fixpoint questionUntilFilled_from (p : Prompt) (m : Msg) (lines : list string)
  : M string := fun w =>
  match lines with
  | [] => Blocked (say (Asked p) w)
  | line :: rest =>
      let w1 := with_input rest (say (Asked p) w) in
      let x := trim line in
      if decide (x = "") then questionUntilFilled_from p m rest (say m w1)
      else Return x w1
  end.

Definition questionUntilFilled (p : Prompt) (m : Msg) : M string :=
  fun w => questionUntilFilled_from p m (input w) w.

(** ** Storage *)

Definition initialNotes : list Note := [].

(** [saveNotes(notes)]. *)
Definition saveNotes (notes : list Note) : M unit := fun w =>
  if writable w then Return tt (with_disk (Readable (JSON_stringify notes)) w)
  else Exit 1 (say ErrorWriting w).

(** [loadNotes()].  The value returned is whatever [JSON.parse] gives. *)
Definition loadNotes : M json := fun w =>
  match disk w with
  | None =>
      (_ ← saveNotes initialNotes;
       mret (JArray (json_of_note <$> initialNotes))) w
  | Some f =>
      match f with
      | Unreadable => Exit 1 (say ErrorReading w)
      | Readable data =>
          match JSON_parse data with
          | None => Exit 1 (say ErrorReading w)
          | Some v => Return v w
          end
      end
  end.

(** ** The operations *)

(** [addNote(notes)]; [now] is what [new Date().toISOString()] gives. *)
Definition addNote (notes : list Note) (now : string) : M (list Note) :=
  ttl ← questionUntilFilled AskTitle TitleEmpty;
  if decide (Exists (fun n => toLowerCase (title n) = toLowerCase ttl) notes)
  then _ ← log (AlreadyExists ttl); mret notes
  else
    bdy ← questionUntilFilled AskBody BodyEmpty;
    let notes' := notes ++ [mkNote ttl bdy now] in
    _ ← saveNotes notes';
    _ ← log Added;
    mret notes'.

Fixpoint logAll (ms : list Msg) : M unit :=
  match ms with
  | [] => mret tt
  | m :: ms' => _ ← log m; logAll ms'
  end.

(** [listAllNotes(notes)]. *)
Definition listAllNotes (notes : list Note) : M unit :=
  if decide (length notes = 0) then log NoNotes
  else
    _ ← log AllNotes;
    logAll (concat (imap (fun i note =>
              [ItemTitle (i + 1) (title note); ItemBody (body note);
               ItemAdded (time_added note)]) notes)).

(** [readNote(notes)]. *)
Definition readNote (notes : list Note) : M unit :=
  titleInput ← trim <$> question AskPart;
  if decide (titleInput = "") then log TitleInputEmpty
  else
    match findNoteByTitle notes titleInput with
    | None => log (NotFound titleInput)
    | Some (_, note) =>
        _ ← log (ShowTitle (title note));
        _ ← log (ShowBody (body note));
        log (ShowAdded (time_added note))
    end.

(** The callback of [findIndex] in [deleteNote]. *)
Definition titleIsOrIncludes (query : string) (n : Note) : Prop :=
  titleIs query n \/ titleIncludes query n.

#[global] Instance titleIsOrIncludes_dec query n :
  Decision (titleIsOrIncludes query n).
Proof. unfold titleIsOrIncludes. apply _. Defined.

(** [deleteNote(notes)].  [findIndex] gives the index, [splice(index, 1)]
    removes the element there and returns it. *)
Definition deleteNote (notes : list Note) : M (list Note) :=
  titleInput ← trim <$> question AskPartToDelete;
  if decide (titleInput = "") then _ ← log TitleInputEmpty; mret notes
  else
    match list_find (titleIsOrIncludes (toLowerCase titleInput)) notes with
    | None => _ ← log (NotFound titleInput); mret notes
    | Some (index, deletedNote) =>
        let notes' := delete index notes in
        _ ← saveNotes notes';
        _ ← log (Deleted (title deletedNote));
        mret notes'
    end.

(** [updateNote(notes)].  The note found is the array's own object, so
    the assignment to its [body] changes the array at the index found. *)
Definition updateNote (notes : list Note) : M (list Note) :=
  titleInput ← trim <$> question AskPartToUpdate;
  if decide (titleInput = "") then _ ← log TitleInputEmpty; mret notes
  else
    match findNoteByTitle notes titleInput with
    | None => _ ← log (NotFound titleInput); mret notes
    | Some (index, _) =>
        newBody ← trim <$> question AskNewBody;
        if decide (newBody = "") then _ ← log BodyEmpty; mret notes
        else
          let notes' := alter (set_body newBody) index notes in
          _ ← saveNotes notes';
          _ ← log Updated;
          mret notes'
    end.

(** One round of the [while (true)] loop of [main]. *)
Definition mainLoopBody (notes : list Note) (now : string) : M (list Note) :=
  _ ← logAll [MenuHeader; MenuItem 1; MenuItem 2; MenuItem 3; MenuItem 4;
              MenuItem 5; MenuItem 6];
  choice ← trim <$> question AskChoice;
  if decide (choice = "1") then addNote notes now
  else if decide (choice = "2") then _ ← listAllNotes notes; mret notes
  else if decide (choice = "3") then _ ← readNote notes; mret notes
  else if decide (choice = "4") then deleteNote notes
  else if decide (choice = "5") then updateNote notes
  else if decide (choice = "6") then _ ← log Goodbye; exit 0
  else _ ← log InvalidChoice; mret notes.

(** [getValidatedTitle()] of the title prompt script. *)
Definition getValidatedTitle : M string :=
  questionUntilFilled AskANoteTitle TitleEmptyPleaseEnter.

(** ** The session *)

(** The notes a parsed document stands for.  The operations are
    modelled on arrays of note objects; a document is read as one when
    it is an array of objects with exactly the members [saveNotes]
    writes, in the order it writes them. *)
Definition note_of_json (v : json) : option Note :=
  match v with
  | JObject [(k1, JString t); (k2, JString b); (k3, JString added)] =>
      if decide (k1 = "title" /\ k2 = "body" /\ k3 = "time_added")
      then Some (mkNote t b added) else None
  | _ => None
  end.

Definition notes_of_json (v : json) : option (list Note) :=
  match v with
  | JArray items => mapM note_of_json items
  | _ => None
  end.

(** How a session ends: the process exits or waits for a line that is
    never typed ([Ended]; the loop has no way to return).  [OutOfFuel]
    and [Untyped] mark where the model stops: more rounds than allowed
    for, or a loaded document that is not an array of notes. *)
Inductive Run :=
  | Ended (o : Outcome Empty_set)
  | OutOfFuel
  | Untyped (v : json).

(** The [while (true)] loop of [main], for at most [fuel] rounds;
    [clock i] is what [new Date().toISOString()] gives in round [i]. *)
Fixpoint mainLoop (clock : nat -> string) (round fuel : nat)
         (notes : list Note) (w : World) : Run :=
  match fuel with
  | 0 => OutOfFuel
  | S fuel' =>
      match mainLoopBody notes (clock round) w with
      | Return notes' w' => mainLoop clock (S round) fuel' notes' w'
      | Exit code w' => Ended (Exit code w')
      | Blocked w' => Ended (Blocked w')
      end
  end.

(** [main()]. *)
Definition main (clock : nat -> string) (fuel : nat) (w : World) : Run :=
  match loadNotes w with
  | Return v w' =>
      match notes_of_json v with
      | Some notes => mainLoop clock 0 fuel notes w'
      | None => Untyped v
      end
  | Exit code w' => Ended (Exit code w')
  | Blocked w' => Ended (Blocked w')
  end.

(** * Vocabulary of the properties *)

(** ** Titles *)

(** Two titles are equal up to case. *)
Definition sameTitle (a b : string) : Prop := toLowerCase a = toLowerCase b.

(** Title [t] contains [q] up to case. *)
Definition titleContains (t q : string) : Prop :=
  includes (toLowerCase t) (toLowerCase q) = true.

(** [n] sits at index [i] of [notes], satisfies [P], and no note before
    it does: the first note with [P] in encounter order. *)
Definition firstWith (P : Note -> Prop) (notes : list Note) (i : nat) (n : Note)
  : Prop :=
  notes !! i = Some n /\ P n /\
  forall j m, notes !! j = Some m -> j < i -> ~ P m.

(** A value the user entered at a prompt loop: a trimmed line that is
    not empty. *)
Definition entered (x : string) : Prop := x <> "" /\ exists line, x = trim line.

(** The ways [deleteNote] returns. *)
Inductive DeleteReturn (notes : list Note) (w : World)
  : list Note -> World -> Prop :=
  | delete_empty_input line rest :
      input w = line :: rest -> trim line = "" ->
      DeleteReturn notes w notes
        (say TitleInputEmpty (with_input rest (say (Asked AskPartToDelete) w)))
  | delete_not_found line rest :
      input w = line :: rest -> trim line <> "" ->
      list_find (titleIsOrIncludes (toLowerCase (trim line))) notes = None ->
      DeleteReturn notes w notes
        (say (NotFound (trim line))
             (with_input rest (say (Asked AskPartToDelete) w)))
  | delete_done line rest index deletedNote :
      input w = line :: rest -> trim line <> "" ->
      list_find (titleIsOrIncludes (toLowerCase (trim line))) notes
      = Some (index, deletedNote) ->
      writable w = true ->
      DeleteReturn notes w (delete index notes)
        (say (Deleted (title deletedNote))
             (with_disk (Readable (JSON_stringify (delete index notes)))
                        (with_input rest (say (Asked AskPartToDelete) w)))).

(** The ways [updateNote] returns. *)
Inductive UpdateReturn (notes : list Note) (w : World)
  : list Note -> World -> Prop :=
  | update_empty_input line rest :
      input w = line :: rest -> trim line = "" ->
      UpdateReturn notes w notes
        (say TitleInputEmpty (with_input rest (say (Asked AskPartToUpdate) w)))
  | update_not_found line rest :
      input w = line :: rest -> trim line <> "" ->
      findNoteByTitle notes (trim line) = None ->
      UpdateReturn notes w notes
        (say (NotFound (trim line))
             (with_input rest (say (Asked AskPartToUpdate) w)))
  | update_empty_body line line2 rest index note :
      input w = line :: line2 :: rest -> trim line <> "" ->
      findNoteByTitle notes (trim line) = Some (index, note) ->
      trim line2 = "" ->
      UpdateReturn notes w notes
        (say BodyEmpty
           (with_input rest (say (Asked AskNewBody)
              (with_input (line2 :: rest) (say (Asked AskPartToUpdate) w)))))
  | update_done line line2 rest index note :
      input w = line :: line2 :: rest -> trim line <> "" ->
      findNoteByTitle notes (trim line) = Some (index, note) ->
      trim line2 <> "" ->
      writable w = true ->
      UpdateReturn notes w (alter (set_body (trim line2)) index notes)
        (say Updated
           (with_disk
              (Readable (JSON_stringify
                           (alter (set_body (trim line2)) index notes)))
              (with_input rest (say (Asked AskNewBody)
                 (with_input (line2 :: rest)
                             (say (Asked AskPartToUpdate) w)))))).

(** ** Repository states *)

(** One mutation of the notes array by an operation that returns. *)
Inductive step (notes notes' : list Note) : Prop :=
  | step_add now w w' : addNote notes now w = Return notes' w' -> step notes notes'
  | step_update w w' : updateNote notes w = Return notes' w' -> step notes notes'
  | step_delete w w' : deleteNote notes w = Return notes' w' -> step notes notes'.

(** The states the operations lead to from the empty repository. *)
Inductive reachable : list Note -> Prop :=
  | reach_empty : reachable []
  | reach_step notes notes' : reachable notes -> step notes notes' -> reachable notes'.

(** No two notes have titles equal up to case. *)
Definition uniqueTitles (notes : list Note) : Prop :=
  NoDup ((fun n => toLowerCase (title n)) <$> notes).

(** A stored field is not empty and has no white space at either end. *)
Definition tidy (s : string) : Prop :=
  s <> "" /\ leadingSpace s = false /\ trailingSpace s = false.

Definition tidyNote (n : Note) : Prop := tidy (title n) /\ tidy (body n).

(** A line made of white space only. *)
Fixpoint onlyWhiteSpace (s : string) : bool :=
  match s with
  | EmptyString => true
  | String c s' => isWhiteSpace c && onlyWhiteSpace s'
  end.

(** The same world with every line still to be typed trimmed. *)
Definition trimInput (w : World) : World := with_input (trim <$> input w) w.

Definition onWorld {A} (f : World -> World) (o : Outcome A) : Outcome A :=
  match o with
  | Return a w => Return a (f w)
  | Exit code w => Exit code (f w)
  | Blocked w => Blocked (f w)
  end.

(** A computation sees what is typed only through [trim]: trimming the
    lines beforehand changes nothing but the lines left over. *)
Definition trimsInput {A} (m : M A) : Prop :=
  forall w, m (trimInput w) = onWorld trimInput (m w).

(** ** Worlds and outcomes *)

Definition world_of {A} (o : Outcome A) : World :=
  match o with
  | Return _ w => w
  | Exit _ w => w
  | Blocked w => w
  end.

(** The notes file holds what [saveNotes(notes)] writes. *)
Definition mirrored (notes : list Note) (w : World) : Prop :=
  disk w = Some (Readable (JSON_stringify notes)).

(** A computation that only reads lines and prints: it never ends the
    process, leaves the notes file and its permissions alone, uses up
    lines from the front, and waits only when no line is left. *)
Definition quiet {A} (m : M A) : Prop :=
  forall w,
    match m w with
    | Return _ w' =>
        disk w' = disk w /\ writable w' = writable w
        /\ input w' `suffix_of` input w
    | Exit _ _ => False
    | Blocked w' =>
        disk w' = disk w /\ writable w' = writable w /\ input w' = []
    end.

(** A computation that keeps to the program's discipline: it uses up
    lines from the front; it ends the process only with status 1, right
    after reporting a failed write and with the notes file untouched, or,
    where [bye] allows it, with status 0 right after the goodbye; it
    waits only when no line is left, the notes file untouched. *)
Definition disciplined {A} (bye : bool) (m : M A) : Prop :=
  forall w,
    match m w with
    | Return _ w' =>
        writable w' = writable w /\ input w' `suffix_of` input w
    | Exit code w' =>
        disk w' = disk w /\ writable w' = writable w
        /\ ((code = 1%Z /\ writable w = false
             /\ last (output w') = Some ErrorWriting)
            \/ (bye = true /\ code = 0%Z /\ last (output w') = Some Goodbye))
    | Blocked w' =>
        disk w' = disk w /\ writable w' = writable w /\ input w' = []
    end.

(** A computation that prints and returns, whatever the world. *)
Definition prints {A} (m : M A) : Prop :=
  forall w, exists a w',
    m w = Return a w' /\ disk w' = disk w /\ writable w' = writable w
    /\ input w' = input w.

(** [notes'] comes from [notes] by operations that return. *)
Inductive steps (notes : list Note) : list Note -> Prop :=
  | steps_refl : steps notes notes
  | steps_step notes' notes'' :
      steps notes notes' -> step notes' notes'' -> steps notes notes''.

(** How a session that started in world [w] can end: with status 0
    right after the goodbye; with status 1 right after the report of a
    failed write, and only when writes fail; or waiting, no line being
    left. *)
Definition sessionEnd (w : World) (o : Outcome Empty_set) : Prop :=
  match o with
  | Return e _ => match e with end
  | Exit code w' =>
      writable w' = writable w
      /\ ((code = 0%Z /\ last (output w') = Some Goodbye)
          \/ (code = 1%Z /\ writable w = false
              /\ last (output w') = Some ErrorWriting))
  | Blocked w' => writable w' = writable w /\ input w' = []
  end.

(** What identifies a note for its whole life: its title and the time
    it was added. *)
Definition stamp (n : Note) : string * string := (title n, time_added n).

(** What a prompt loop prints for the blank lines it skips. *)
Definition refusals (p : Prompt) (m : Msg) (blanks : list string) : list Msg :=
  concat ((fun _ => [Asked p; m]) <$> blanks).

(** ** The structure the specification expects of the notes file *)

Module Expected.

Definition isDigit (c : ascii) : bool :=
  ((48 <=? codeUnit c) && (codeUnit c <=? 57))%N.

(** [s] has the shape of [pattern], where a [d] of the pattern stands
    for a digit and any other character for itself. *)
Fixpoint shaped (pattern s : string) : bool :=
  match pattern, s with
  | EmptyString, EmptyString => true
  | String p pattern', String c s' =>
      (if bool_decide (p = "d"%char) then isDigit c else bool_decide (p = c))
      && shaped pattern' s'
  | _, _ => false
  end.

(** ISO-8601 text as [toISOString] writes it. *)
Definition isIsoTimestamp (s : string) : bool :=
  shaped "dddd-dd-ddTdd:dd:dd.dddZ" s.

Fixpoint member (key : string) (members : list (string * json)) : option json :=
  match members with
  | [] => None
  | (k, v) :: members' =>
      if bool_decide (k = key) then Some v else member key members'
  end.

Definition isText (v : option json) : bool :=
  match v with Some (JString _) => true | _ => false end.

Definition isTimestamp (v : option json) : bool :=
  match v with Some (JString s) => isIsoTimestamp s | _ => false end.

(** An object with text [title], text [body] and ISO-8601 text
    [time_added]. *)
Definition isNote (v : json) : bool :=
  match v with
  | JObject members =>
      isText (member "title" members) && isText (member "body" members)
      && isTimestamp (member "time_added" members)
  | _ => false
  end.

(** An array of such objects. *)
Definition isNotes (v : json) : bool :=
  match v with
  | JArray items => forallb isNote items
  | _ => false
  end.

(** The file can be parsed as the expected structure. *)
Definition parses (f : File) : bool :=
  match f with
  | Readable (Json v) => isNotes v
  | _ => false
  end.

End Expected.

(** ** Sample notes *)

Definition shopping (t : string) : Note := mkNote "Shopping" "milk, eggs" t.
Definition shoppingList (t : string) : Note := mkNote "Shopping List" "bread" t.
Definition tripPlan (t : string) : Note := mkNote "Trip Plan" "pack bags" t.
Definition tripNotes (t : string) : Note := mkNote "Trip Notes" "passport" t.

(** A world with no notes file yet, a writable disk and [lines] to type. *)
Definition freshWorld (lines : list string) : World :=
  {| disk := None; writable := true; input := lines; output := [] |}.

(** * Properties *)

(** ** The built-ins on sample strings *)

Example toLowerCase_sample : toLowerCase "Trip Plan [A-Z]" = "trip plan [a-z]".
Proof. reflexivity. Qed.

Example trim_sample : trim "  pack  bags   " = "pack  bags".
Proof. reflexivity. Qed.

Example includes_sample :
  includes "shopping list" "ping l" = true
  /\ includes "shopping list" "pingl" = false.
Proof. split; reflexivity. Qed.

Example isIsoTimestamp_sample :
  Expected.isIsoTimestamp "2024-05-01T09:30:00.000Z" = true
  /\ Expected.isIsoTimestamp "yesterday" = false.
Proof. split; reflexivity. Qed.

(** ** Strings *)

Section StringFacts.

Lemma startsWith_refl s : startsWith s s = true.
Proof.
  induction s as [|c s IH]; simpl; [reflexivity|].
  rewrite bool_decide_eq_true_2 by reflexivity. exact IH.
Qed.

Lemma includes_refl s : includes s s = true.
Proof. destruct s; simpl; [reflexivity|]. now rewrite bool_decide_eq_true_2, startsWith_refl. Qed.

Lemma includes_empty s : includes s "" = true.
Proof. destruct s; reflexivity. Qed.

Lemma trimStart_leading s : leadingSpace (trimStart s) = false.
Proof.
  induction s as [|c s IH]; simpl; [reflexivity|].
  destruct (isWhiteSpace c) eqn:Hc; [exact IH|]. simpl. exact Hc.
Qed.

Lemma trimEnd_trailing s : trailingSpace (trimEnd s) = false.
Proof.
  induction s as [|c s IH]; simpl; [reflexivity|].
  destruct (trimEnd s) as [|d t] eqn:Ht.
  - destruct (isWhiteSpace c) eqn:Hc; simpl; [reflexivity|exact Hc].
  - exact IH.
Qed.

Lemma trimEnd_leading s : leadingSpace s = false -> leadingSpace (trimEnd s) = false.
Proof.
  destruct s as [|c s]; simpl; [reflexivity|]. intros Hc.
  destruct (trimEnd s); [rewrite Hc|]; simpl; exact Hc.
Qed.

Lemma trimStart_id s : leadingSpace s = false -> trimStart s = s.
Proof. destruct s as [|c s]; simpl; [reflexivity|]. now intros ->. Qed.

Lemma trimEnd_id s : trailingSpace s = false -> trimEnd s = s.
Proof.
  induction s as [|c s IH]; [reflexivity|]. intros H.
  destruct s as [|d s].
  - simpl in *. now rewrite H.
  - change (trailingSpace (String d s) = false) in H.
    change (trimEnd (String c (String d s)))
      with (match trimEnd (String d s) with
            | EmptyString => if isWhiteSpace c then EmptyString else String c EmptyString
            | t => String c t
            end).
    rewrite (IH H). reflexivity.
Qed.

Lemma trim_leading s : leadingSpace (trim s) = false.
Proof. apply trimEnd_leading, trimStart_leading. Qed.

Lemma trim_trailing s : trailingSpace (trim s) = false.
Proof. apply trimEnd_trailing. Qed.

Lemma trim_trim s : trim (trim s) = trim s.
Proof.
  unfold trim at 1.
  rewrite (trimStart_id _ (trim_leading s)).
  apply trimEnd_id, trim_trailing.
Qed.

End StringFacts.

Lemma sameTitle_titleContains t q : sameTitle t q -> titleContains t q.
Proof. unfold sameTitle, titleContains. intros ->. apply includes_refl. Qed.

Lemma list_find_firstWith (P : Note -> Prop) `{!forall n, Decision (P n)}
      (notes : list Note) i n :
  list_find P notes = Some (i, n) <-> firstWith P notes i n.
Proof. unfold firstWith. apply list_find_Some. Qed.

Lemma list_find_none_iff (P : Note -> Prop) `{!forall n, Decision (P n)}
      (notes : list Note) :
  list_find P notes = None <-> forall n, n ∈ notes -> ~ P n.
Proof. rewrite list_find_None, Forall_forall. reflexivity. Qed.

(** ** findNoteByTitle *)

Lemma findNoteByTitle_exact notes titleInput i n :
  firstWith (fun x => sameTitle (title x) titleInput) notes i n ->
  findNoteByTitle notes titleInput = Some (i, n).
Proof.
  intros H. unfold findNoteByTitle.
  now rewrite (proj2 (list_find_firstWith (titleIs (toLowerCase titleInput)) notes i n) H).
Qed.

Lemma findNoteByTitle_partial notes titleInput :
  (forall n, n ∈ notes -> ~ sameTitle (title n) titleInput) ->
  findNoteByTitle notes titleInput
  = list_find (titleIncludes (toLowerCase titleInput)) notes.
Proof.
  intros H. unfold findNoteByTitle.
  now rewrite (proj2 (list_find_none_iff (titleIs (toLowerCase titleInput)) notes) H).
Qed.

Lemma findNoteByTitle_none notes titleInput :
  findNoteByTitle notes titleInput = None <->
  forall n, n ∈ notes -> ~ titleContains (title n) titleInput.
Proof.
  unfold findNoteByTitle. split.
  - destruct (list_find (titleIs _) notes) eqn:He; [discriminate|].
    intros H.
    exact (proj1 (list_find_none_iff (titleIncludes (toLowerCase titleInput)) notes) H).
  - intros H.
    assert (He : list_find (titleIs (toLowerCase titleInput)) notes = None).
    { apply list_find_none_iff. intros n Hn Hs. apply (H n Hn).
      now apply sameTitle_titleContains. }
    rewrite He.
    exact (proj2 (list_find_none_iff (titleIncludes (toLowerCase titleInput)) notes) H).
Qed.

Lemma exists_first (P : Note -> Prop) `{!forall n, Decision (P n)}
      (notes : list Note) n :
  n ∈ notes -> P n -> exists i m, list_find P notes = Some (i, m).
Proof.
  intros Hn HP. destruct (list_find_elem_of P notes n Hn HP) as [[i m] Hf].
  eauto.
Qed.

(** ** Prompts *)

Lemma questionUntilFilled_blank p m w line rest :
  input w = line :: rest -> trim line = "" ->
  questionUntilFilled p m w
  = questionUntilFilled p m (say m (with_input rest (say (Asked p) w))).
Proof.
  intros Hin Hb. unfold questionUntilFilled. rewrite Hin. simpl.
  rewrite Hb. reflexivity.
Qed.

Lemma questionUntilFilled_filled p m w line rest :
  input w = line :: rest -> trim line <> "" ->
  questionUntilFilled p m w
  = Return (trim line) (with_input rest (say (Asked p) w)).
Proof.
  intros Hin Hb. unfold questionUntilFilled. rewrite Hin. simpl.
  destruct (decide (trim line = "")); [contradiction|reflexivity].
Qed.

Lemma questionUntilFilled_from_Return p m lines w x w' :
  questionUntilFilled_from p m lines w = Return x w' ->
  entered x /\ disk w' = disk w /\ writable w' = writable w.
Proof.
  revert w. induction lines as [|line rest IH]; intros w; simpl; [discriminate|].
  destruct (decide (trim line = "")) as [Hb|Hb].
  - intros H. apply IH in H. exact H.
  - intros [= ? ?]; subst. repeat split; eauto.
Qed.

Lemma questionUntilFilled_Return p m w x w' :
  questionUntilFilled p m w = Return x w' ->
  entered x /\ disk w' = disk w /\ writable w' = writable w.
Proof. apply questionUntilFilled_from_Return. Qed.

Lemma questionUntilFilled_from_no_Exit p m lines w code w' :
  questionUntilFilled_from p m lines w <> Exit code w'.
Proof.
  revert w. induction lines as [|line rest IH]; intros w; simpl; [discriminate|].
  destruct (decide (trim line = "")); [apply IH|discriminate].
Qed.

(** ** What a returning operation has done *)

Lemma saveNotes_Return notes w u w' :
  saveNotes notes w = Return u w' ->
  writable w = true /\ w' = with_disk (Readable (JSON_stringify notes)) w.
Proof.
  unfold saveNotes. destruct (writable w); [|discriminate].
  intros [= ? ?]; subst. split; reflexivity.
Qed.

Lemma addNote_Return notes now w notes' w' :
  addNote notes now w = Return notes' w' ->
  (notes' = notes /\ disk w' = disk w)
  \/ exists ttl bdy,
       entered ttl /\ entered bdy
       /\ (forall n, n ∈ notes -> ~ sameTitle (title n) ttl)
       /\ notes' = notes ++ [mkNote ttl bdy now]
       /\ disk w' = Some (Readable (JSON_stringify notes')).
Proof.
  unfold addNote, mbind, M_bind.
  destruct (questionUntilFilled AskTitle TitleEmpty w) as [ttl w1| |] eqn:Ht;
    [|discriminate..].
  apply questionUntilFilled_Return in Ht as (Hτ & Hd1 & Hw1).
  destruct (decide (Exists _ notes)) as [Hdup|Hnew].
  - unfold log, mret, M_ret. intros [= ? ?]; subst. left. split; [reflexivity|]. exact Hd1.
  - destruct (questionUntilFilled AskBody BodyEmpty w1) as [bdy w2| |] eqn:Hb;
      [|discriminate..].
    apply questionUntilFilled_Return in Hb as (Hβ & Hd2 & Hw2).
    destruct (saveNotes _ w2) as [u w3| |] eqn:Hs; [|discriminate..].
    apply saveNotes_Return in Hs as [_ ->].
    unfold log, mret, M_ret. intros [= ? ?]; subst. right.
    exists ttl, bdy. split; [exact Hτ|]. split; [exact Hβ|].
    split; [|split; reflexivity].
    intros n Hn Hsame. apply Hnew. apply Exists_exists. exists n. split; assumption.
Qed.

Lemma question_trim_Return p w x w' :
  (trim <$> question p) w = Return x w' ->
  exists line rest,
    input w = line :: rest /\ x = trim line
    /\ w' = with_input rest (say (Asked p) w).
Proof.
  unfold fmap, M_fmap, question.
  destruct (input w) as [|line rest]; [discriminate|].
  intros [= ? ?]; subst. eauto.
Qed.

Lemma question_trim_line p w line rest :
  input w = line :: rest ->
  (trim <$> question p) w = Return (trim line) (with_input rest (say (Asked p) w)).
Proof. intros Hin. unfold fmap, M_fmap, question. now rewrite Hin. Qed.

Lemma deleteNote_Return notes w notes' w' :
  deleteNote notes w = Return notes' w' <-> DeleteReturn notes w notes' w'.
Proof.
  split.
  - unfold deleteNote. unfold mbind at 1, M_bind at 1.
    destruct ((trim <$> question AskPartToDelete) w) as [x w1| |] eqn:Hq;
      [|discriminate..].
    apply question_trim_Return in Hq as (line & rest & Hin & -> & ->).
    destruct (decide (trim line = "")) as [Hb|Hb].
    + intros [= ? ?]; subst. eapply delete_empty_input; eassumption.
    + destruct (list_find _ notes) as [[index deletedNote]|] eqn:Hf.
      * unfold mbind, M_bind, saveNotes. simpl.
        destruct (writable w) eqn:Hw; [|discriminate].
        intros [= ? ?]; subst. eapply delete_done; eassumption.
      * intros [= ? ?]; subst. eapply delete_not_found; eassumption.
  - intros [line rest Hin Hb|line rest Hin Hb Hf|line rest index n Hin Hb Hf Hw];
      unfold deleteNote; unfold mbind at 1, M_bind at 1;
      rewrite (question_trim_line _ _ _ _ Hin).
    + rewrite decide_True by assumption. reflexivity.
    + rewrite decide_False by assumption. rewrite Hf. reflexivity.
    + rewrite decide_False by assumption. rewrite Hf.
      unfold mbind, M_bind, saveNotes. simpl. rewrite Hw. reflexivity.
Qed.

Lemma updateNote_Return notes w notes' w' :
  updateNote notes w = Return notes' w' <-> UpdateReturn notes w notes' w'.
Proof.
  split.
  - unfold updateNote. unfold mbind at 1, M_bind at 1.
    destruct ((trim <$> question AskPartToUpdate) w) as [x w1| |] eqn:Hq;
      [|discriminate..].
    apply question_trim_Return in Hq as (line & rest & Hin & -> & ->).
    destruct (decide (trim line = "")) as [Hb|Hb].
    + intros [= ? ?]; subst. eapply update_empty_input; eassumption.
    + destruct (findNoteByTitle notes (trim line)) as [[index note]|] eqn:Hf.
      * unfold mbind at 1, M_bind at 1.
        destruct ((trim <$> question AskNewBody) _) as [y w2| |] eqn:Hq2;
          [|discriminate..].
        apply question_trim_Return in Hq2 as (line2 & rest2 & Hin2 & -> & ->).
        simpl in Hin2. subst rest.
        destruct (decide (trim line2 = "")) as [Hb2|Hb2].
        -- intros [= ? ?]; subst. eapply update_empty_body; eassumption.
        -- unfold mbind, M_bind, saveNotes. simpl.
           destruct (writable w) eqn:Hw; [|discriminate].
           intros [= ? ?]; subst. eapply update_done; eassumption.
      * intros [= ? ?]; subst. eapply update_not_found; eassumption.
  - intros [line rest Hin Hb|line rest Hin Hb Hf
           |line line2 rest index n Hin Hb Hf Hb2
           |line line2 rest index n Hin Hb Hf Hb2 Hw];
      unfold updateNote; unfold mbind at 1, M_bind at 1;
      rewrite (question_trim_line _ _ _ _ Hin).
    + rewrite decide_True by assumption. reflexivity.
    + rewrite decide_False by assumption. rewrite Hf. reflexivity.
    + rewrite decide_False by assumption. rewrite Hf.
      unfold mbind at 1, M_bind at 1.
      rewrite (question_trim_line _ _ line2 rest) by reflexivity.
      rewrite decide_True by assumption. reflexivity.
    + rewrite decide_False by assumption. rewrite Hf.
      unfold mbind at 1, M_bind at 1.
      rewrite (question_trim_line _ _ line2 rest) by reflexivity.
      rewrite decide_False by assumption.
      unfold mbind, M_bind, saveNotes. simpl. rewrite Hw. reflexivity.
Qed.

Lemma titles_alter_body (f : string -> string) b i (notes : list Note) :
  (fun n => f (title n)) <$> alter (set_body b) i notes
  = (fun n => f (title n)) <$> notes.
Proof.
  rewrite (list_fmap_alter (fun n => f (title n)) (set_body b) id).
  - apply list_alter_id. reflexivity.
  - apply Forall_forall. reflexivity.
Qed.

Lemma times_alter_body b i (notes : list Note) :
  time_added <$> alter (set_body b) i notes = time_added <$> notes.
Proof.
  rewrite (list_fmap_alter time_added (set_body b) id).
  - apply list_alter_id. reflexivity.
  - apply Forall_forall. reflexivity.
Qed.

Lemma uniqueTitles_add notes ttl bdy now :
  uniqueTitles notes ->
  (forall n, n ∈ notes -> ~ sameTitle (title n) ttl) ->
  uniqueTitles (notes ++ [mkNote ttl bdy now]).
Proof.
  intros Hu Hnew. unfold uniqueTitles. rewrite fmap_app. apply NoDup_app.
  split; [exact Hu|]. split; [|apply NoDup_singleton].
  intros x Hx Hx'. apply list_elem_of_fmap in Hx as (n & -> & Hn).
  apply list_elem_of_singleton in Hx'. simpl in Hx'.
  exact (Hnew n Hn Hx').
Qed.

Lemma uniqueTitles_step notes notes' :
  uniqueTitles notes -> step notes notes' -> uniqueTitles notes'.
Proof.
  intros Hu [now w w' H|w w' H|w w' H].
  - apply addNote_Return in H as [[-> _]|(ttl & bdy & _ & _ & Hnew & -> & _)];
      [exact Hu|]. now apply uniqueTitles_add.
  - apply updateNote_Return in H. destruct H; try exact Hu.
    unfold uniqueTitles. rewrite (titles_alter_body toLowerCase). exact Hu.
  - apply deleteNote_Return in H. destruct H; try exact Hu.
    unfold uniqueTitles. rewrite list_fmap_delete.
    eapply sublist_NoDup; [exact Hu|apply sublist_delete].
Qed.

Lemma entered_tidy x : entered x -> tidy x.
Proof.
  intros [Hne [line ->]]. split; [exact Hne|].
  split; [apply trim_leading|apply trim_trailing].
Qed.

Lemma tidyNotes_step notes notes' :
  Forall tidyNote notes -> step notes notes' -> Forall tidyNote notes'.
Proof.
  intros Ht [now w w' H|w w' H|w w' H].
  - apply addNote_Return in H as [[-> _]|(ttl & bdy & Hτ & Hβ & _ & -> & _)];
      [exact Ht|].
    apply Forall_app_2; [exact Ht|]. apply Forall_singleton.
    split; simpl; now apply entered_tidy.
  - apply updateNote_Return in H. destruct H; try exact Ht.
    apply Forall_alter; [exact Ht|]. intros n _ [Hn _].
    split; simpl; [exact Hn|]. apply entered_tidy. split; eauto.
  - apply deleteNote_Return in H. destruct H; try exact Ht.
    now apply Forall_delete.
Qed.

(** A prompt loop skips the lines that are blank after trimming and
    returns the first one that is not. *)
Lemma questionUntilFilled_skip p m blanks : forall w line rest,
  input w = blanks ++ line :: rest ->
  Forall (fun l => trim l = "") blanks ->
  trim line <> "" ->
  exists w1,
    questionUntilFilled p m w = Return (trim line) w1
    /\ input w1 = rest /\ disk w1 = disk w /\ writable w1 = writable w
    /\ last (output w1) = Some (Asked p).
Proof.
  induction blanks as [|b blanks IH]; intros w line rest Hin Hbl Hne.
  - rewrite (questionUntilFilled_filled p m w line rest Hin Hne).
    eexists. split; [reflexivity|]. simpl. repeat split. apply last_snoc.
  - apply Forall_cons in Hbl as [Hb Hbl].
    rewrite (questionUntilFilled_blank p m w b (blanks ++ line :: rest) Hin Hb).
    destruct (IH (say m (with_input (blanks ++ line :: rest) (say (Asked p) w)))
                 line rest eq_refl Hbl Hne) as (w1 & -> & ? & ? & ? & ?).
    exists w1. repeat split; assumption.
Qed.

(** ** Trimming of what is typed *)

Lemma trimStart_empty s : trimStart s = "" <-> onlyWhiteSpace s = true.
Proof.
  induction s as [|c s IH]; simpl; [tauto|].
  destruct (isWhiteSpace c); simpl; [exact IH|]. split; discriminate.
Qed.

Lemma trimEnd_empty s : leadingSpace s = false -> trimEnd s = "" -> s = "".
Proof.
  destruct s as [|c s]; [reflexivity|]. simpl. intros ->.
  destruct (trimEnd s); discriminate.
Qed.

Lemma onlyWhiteSpace_trim s : onlyWhiteSpace s = true <-> trim s = "".
Proof.
  rewrite <- trimStart_empty. unfold trim. split.
  - intros ->. reflexivity.
  - apply trimEnd_empty, trimStart_leading.
Qed.

Create HintDb trims.

Section TrimsInput.

Lemma trimsInput_ret {A} (a : A) : trimsInput (mret a).
Proof. intros w. reflexivity. Qed.

Lemma trimsInput_bind {A B} (m : M A) (k : A -> M B) :
  trimsInput m -> (forall a, trimsInput (k a)) -> trimsInput (m ≫= k).
Proof.
  intros Hm Hk w. unfold mbind, M_bind. rewrite Hm.
  destruct (m w) as [a w1| |]; simpl; [apply Hk|reflexivity..].
Qed.

Lemma trimsInput_log m : trimsInput (log m).
Proof. intros w. reflexivity. Qed.

Lemma trimsInput_exit {A} code : trimsInput (@exit A code).
Proof. intros w. reflexivity. Qed.

Lemma trimsInput_saveNotes notes : trimsInput (saveNotes notes).
Proof. intros w. unfold saveNotes. simpl. destruct (writable w); reflexivity. Qed.

Lemma trimsInput_question p : trimsInput (trim <$> question p).
Proof.
  intros w. unfold fmap, M_fmap, question. simpl.
  destruct (input w) as [|line rest]; simpl; [reflexivity|].
  rewrite trim_trim. reflexivity.
Qed.

Lemma trimsInput_questionUntilFilled_from p m lines : forall w,
  questionUntilFilled_from p m (trim <$> lines) (trimInput w)
  = onWorld trimInput (questionUntilFilled_from p m lines w).
Proof.
  induction lines as [|line rest IH]; intros w; [reflexivity|].
  simpl. rewrite trim_trim.
  destruct (decide (trim line = "")); [|reflexivity].
  rewrite <- IH. reflexivity.
Qed.

Lemma trimsInput_questionUntilFilled p m : trimsInput (questionUntilFilled p m).
Proof. intros w. apply trimsInput_questionUntilFilled_from. Qed.

Lemma trimsInput_logAll ms : trimsInput (logAll ms).
Proof.
  induction ms as [|m ms IH]; simpl; [apply trimsInput_ret|].
  apply trimsInput_bind; [apply trimsInput_log|intros _; exact IH].
Qed.

End TrimsInput.

#[export] Hint Resolve trimsInput_ret trimsInput_log trimsInput_exit
  trimsInput_saveNotes trimsInput_question trimsInput_questionUntilFilled
  trimsInput_logAll : trims.

Ltac trims :=
  repeat first
    [ solve [auto with trims]
    | case_decide
    | apply trimsInput_bind; [|intros ?] ].

Lemma trimsInput_addNote notes now : trimsInput (addNote notes now).
Proof. unfold addNote. trims. Qed.

Lemma trimsInput_listAllNotes notes : trimsInput (listAllNotes notes).
Proof. unfold listAllNotes. trims. Qed.

Lemma trimsInput_readNote notes : trimsInput (readNote notes).
Proof.
  unfold readNote. trims.
  destruct (findNoteByTitle notes _) as [[i note]|]; trims.
Qed.

Lemma trimsInput_deleteNote notes : trimsInput (deleteNote notes).
Proof.
  unfold deleteNote. trims.
  destruct (list_find _ notes) as [[i note]|]; trims.
Qed.

Lemma trimsInput_updateNote notes : trimsInput (updateNote notes).
Proof.
  unfold updateNote. trims.
  destruct (findNoteByTitle notes _) as [[i note]|]; trims.
Qed.

#[export] Hint Resolve trimsInput_addNote trimsInput_listAllNotes
  trimsInput_readNote trimsInput_deleteNote trimsInput_updateNote : trims.

Lemma trimsInput_mainLoopBody notes now : trimsInput (mainLoopBody notes now).
Proof. unfold mainLoopBody. trims. Qed.

Lemma trimsInput_getValidatedTitle : trimsInput getValidatedTitle.
Proof. apply trimsInput_questionUntilFilled. Qed.

(** ** The claims *)

(** C5. For every list of notes and every non-empty query,
    [findNoteByTitle] returns the first note whose title equals the query
    up to case if there is one; otherwise the first note, in encounter
    order, whose title contains the query up to case; otherwise nothing.
    After adding "Shopping" and then "Shopping List" to the empty
    repository, the query "shopping" finds the "Shopping" note. *)
Theorem findNoteByTitle_exact_then_partial (notes : list Note) (query : string) :
  query <> "" ->
  (forall n, n ∈ notes -> sameTitle (title n) query ->
     exists i m, findNoteByTitle notes query = Some (i, m)
                 /\ firstWith (fun x => sameTitle (title x) query) notes i m)
  /\ ((forall n, n ∈ notes -> ~ sameTitle (title n) query) ->
      forall n, n ∈ notes -> titleContains (title n) query ->
      exists i m, findNoteByTitle notes query = Some (i, m)
                  /\ firstWith (fun x => titleContains (title x) query) notes i m)
  /\ ((forall n, n ∈ notes -> ~ titleContains (title n) query) ->
      findNoteByTitle notes query = None)
  /\ (forall t0 t1, exists w',
        (added ← addNote [] t0; addNote added t1)
          (freshWorld ["Shopping"; "milk, eggs"; "Shopping List"; "bread"])
        = Return [shopping t0; shoppingList t1] w'
        /\ findNoteByTitle [shopping t0; shoppingList t1] "shopping"
           = Some (0, shopping t0)).
Proof.
  intros _. split; [|split; [|split]].
  - intros n Hn Hs.
    destruct (exists_first (titleIs (toLowerCase query)) notes n Hn Hs)
      as (i & m & Hf).
    exists i, m. unfold findNoteByTitle. rewrite Hf. split; [reflexivity|].
    now apply (list_find_firstWith (titleIs (toLowerCase query))).
  - intros Hno n Hn Hc. rewrite (findNoteByTitle_partial _ _ Hno).
    destruct (exists_first (titleIncludes (toLowerCase query)) notes n Hn Hc)
      as (i & m & Hf).
    exists i, m. split; [exact Hf|].
    now apply (list_find_firstWith (titleIncludes (toLowerCase query))).
  - apply findNoteByTitle_none.
  - intros t0 t1. eexists. split; [lazy; reflexivity|reflexivity].
Qed.

Lemma findNoteByTitle_exact_then_partial_witness :
  "shopping" <> ""
  /\ exists i m,
       findNoteByTitle [shoppingList "t0"; shopping "t1"] "shopping" = Some (i, m)
       /\ firstWith (fun x => sameTitle (title x) "shopping")
                    [shoppingList "t0"; shopping "t1"] i m.
Proof.
  assert (Hne : "shopping" <> "") by discriminate.
  split; [exact Hne|].
  apply (proj1 (findNoteByTitle_exact_then_partial
                  [shoppingList "t0"; shopping "t1"] "shopping" Hne)
               (shopping "t1")).
  - apply list_elem_of_lookup. exists 1. reflexivity.
  - reflexivity.
Defined.

(** The new note is what a search for its title finds. *)
Lemma findNoteByTitle_new notes ttl bdy now :
  (forall n, n ∈ notes -> ~ sameTitle (title n) ttl) ->
  findNoteByTitle (notes ++ [mkNote ttl bdy now]) ttl
  = Some (length notes, mkNote ttl bdy now).
Proof.
  intros Hnew. apply findNoteByTitle_exact. split; [|split].
  - apply list_lookup_middle. reflexivity.
  - reflexivity.
  - intros j m Hj Hlt. rewrite lookup_app_l in Hj by exact Hlt.
    apply Hnew. eapply list_elem_of_lookup_2. exact Hj.
Qed.

(** C8. For every repository state, if the title and the body the user
    ends up entering are non-empty after trimming and the title does not
    duplicate an existing one up to case, [addNote] returns and
    [findNoteByTitle] with that title then finds a note with the title
    and the body that were added. *)
Theorem addNote_then_find notes now w blanks1 rawTitle blanks2 rawBody rest :
  input w = blanks1 ++ rawTitle :: blanks2 ++ rawBody :: rest ->
  Forall (fun l => trim l = "") blanks1 ->
  Forall (fun l => trim l = "") blanks2 ->
  trim rawTitle <> "" -> trim rawBody <> "" ->
  (forall n, n ∈ notes -> ~ sameTitle (title n) (trim rawTitle)) ->
  writable w = true ->
  exists notes' w' i note,
    addNote notes now w = Return notes' w'
    /\ findNoteByTitle notes' (trim rawTitle) = Some (i, note)
    /\ notes' !! i = Some note
    /\ title note = trim rawTitle /\ body note = trim rawBody
    /\ time_added note = now.
Proof.
  intros Hin Hb1 Hb2 Hτ Hβ Hnew Hw.
  destruct (questionUntilFilled_skip AskTitle TitleEmpty blanks1 w rawTitle _
              Hin Hb1 Hτ) as (w1 & Hq1 & Hin1 & Hd1 & Hw1 & _).
  destruct (questionUntilFilled_skip AskBody BodyEmpty blanks2 w1 rawBody _
              Hin1 Hb2 Hβ) as (w2 & Hq2 & Hin2 & Hd2 & Hw2 & _).
  exists (notes ++ [mkNote (trim rawTitle) (trim rawBody) now]).
  eexists. exists (length notes), (mkNote (trim rawTitle) (trim rawBody) now).
  split; [|split; [|split; [|repeat split]]].
  - unfold addNote. unfold mbind at 1, M_bind at 1. rewrite Hq1.
    rewrite decide_False.
    + unfold mbind at 1, M_bind at 1. rewrite Hq2.
      unfold mbind, M_bind, saveNotes. rewrite Hw2, Hw1, Hw. reflexivity.
    + intros Hex. apply Exists_exists in Hex as (n & Hn & Hs).
      exact (Hnew n Hn Hs).
  - now apply findNoteByTitle_new.
  - apply list_lookup_middle. reflexivity.
Qed.

Lemma addNote_then_find_witness :
  exists notes' w' i note,
    addNote [shopping "t0"] "t1"
      (freshWorld ["  "; " Shopping List "; ""; " bread"; "2"])
    = Return notes' w'
    /\ findNoteByTitle notes' "Shopping List" = Some (i, note)
    /\ notes' !! i = Some note
    /\ title note = "Shopping List" /\ body note = "bread"
    /\ time_added note = "t1".
Proof.
  apply (addNote_then_find [shopping "t0"] "t1"
           (freshWorld ["  "; " Shopping List "; ""; " bread"; "2"])
           ["  "] " Shopping List " [""] " bread" ["2"]).
  - reflexivity.
  - repeat constructor.
  - repeat constructor.
  - discriminate.
  - discriminate.
  - intros n Hn. apply list_elem_of_singleton in Hn. subst n. discriminate.
  - reflexivity.
Defined.

(** C6. For every repository state, when the title the user ends up
    entering equals the title of an existing note up to case, [addNote]
    reports the duplicate and returns with the note list and the notes
    file unchanged. *)
Theorem addNote_duplicate notes now w blanks rawTitle rest n :
  input w = blanks ++ rawTitle :: rest ->
  Forall (fun l => trim l = "") blanks ->
  trim rawTitle <> "" ->
  n ∈ notes -> sameTitle (title n) (trim rawTitle) ->
  exists w',
    addNote notes now w = Return notes w'
    /\ disk w' = disk w
    /\ last (output w') = Some (AlreadyExists (trim rawTitle))
    /\ input w' = rest.
Proof.
  intros Hin Hb Hτ Hn Hs.
  destruct (questionUntilFilled_skip AskTitle TitleEmpty blanks w rawTitle _
              Hin Hb Hτ) as (w1 & Hq1 & Hin1 & Hd1 & Hw1 & _).
  exists (say (AlreadyExists (trim rawTitle)) w1).
  split; [|split; [exact Hd1|split; [apply last_snoc|exact Hin1]]].
  unfold addNote. unfold mbind at 1, M_bind at 1. rewrite Hq1.
  rewrite decide_True; [reflexivity|].
  apply Exists_exists. exists n. split; assumption.
Qed.

Lemma addNote_duplicate_witness :
  exists w',
    addNote [shopping "t0"] "t1" (freshWorld [""; " SHOPPING "; "bread"])
    = Return [shopping "t0"] w'
    /\ disk w' = disk (freshWorld [""; " SHOPPING "; "bread"])
    /\ last (output w') = Some (AlreadyExists "SHOPPING")
    /\ input w' = ["bread"].
Proof.
  apply (addNote_duplicate [shopping "t0"] "t1"
           (freshWorld [""; " SHOPPING "; "bread"]) [""] " SHOPPING " ["bread"]
           (shopping "t0")).
  - reflexivity.
  - repeat constructor.
  - discriminate.
  - apply list_elem_of_singleton. reflexivity.
  - reflexivity.
Defined.


Lemma findNoteByTitle_Some notes titleInput i n :
  findNoteByTitle notes titleInput = Some (i, n) ->
  notes !! i = Some n /\ titleContains (title n) titleInput.
Proof.
  unfold findNoteByTitle.
  destruct (list_find (titleIs _) notes) as [[j m]|] eqn:He.
  - intros [= ? ?]; subst. apply list_find_Some in He as (Hl & Hs & _).
    split; [exact Hl|]. now apply sameTitle_titleContains.
  - intros Hp. apply list_find_Some in Hp as (Hl & Hc & _).
    split; [exact Hl|exact Hc].
Qed.

(** C9. For every repository state, an [updateNote] that reports success
    changes only the body of the note [findNoteByTitle] resolves: that
    note keeps its title and its time stamp, every other note is the
    same before and after, and the list keeps its length and order. *)
Theorem updateNote_changes_only_body notes w notes' w' :
  updateNote notes w = Return notes' w' ->
  last (output w') = Some Updated ->
  exists rawQuery rawBody rest i note,
    input w = rawQuery :: rawBody :: rest
    /\ trim rawBody <> ""
    /\ findNoteByTitle notes (trim rawQuery) = Some (i, note)
    /\ notes !! i = Some note
    /\ notes' !! i
       = Some (mkNote (title note) (trim rawBody) (time_added note))
    /\ (forall j, j <> i -> notes' !! j = notes !! j)
    /\ length notes' = length notes
    /\ title <$> notes' = title <$> notes
    /\ time_added <$> notes' = time_added <$> notes.
Proof.
  intros H Hlast. apply updateNote_Return in H.
  destruct H as [line rest Hin Hb|line rest Hin Hb Hf
                |line line2 rest index note Hin Hb Hf Hb2
                |line line2 rest index note Hin Hb Hf Hb2 Hw];
    simpl in Hlast; rewrite last_snoc in Hlast; try discriminate.
  pose proof (findNoteByTitle_Some _ _ _ _ Hf) as [Hl _].
  exists line, line2, rest, index, note.
  split; [exact Hin|]. split; [exact Hb2|]. split; [exact Hf|].
  split; [exact Hl|]. split; [|split; [|split; [|split]]].
  - rewrite list_lookup_alter_eq, Hl. reflexivity.
  - intros j Hj. apply list_lookup_alter_ne. congruence.
  - apply length_alter.
  - exact (titles_alter_body id (trim line2) index notes).
  - apply times_alter_body.
Qed.

Lemma updateNote_changes_only_body_witness :
  exists rawQuery rawBody rest i note,
    input (freshWorld ["SHOP"; " oat milk "]) = rawQuery :: rawBody :: rest
    /\ trim rawBody <> ""
    /\ findNoteByTitle [tripPlan "t0"; shopping "t1"] (trim rawQuery)
       = Some (i, note)
    /\ [tripPlan "t0"; shopping "t1"] !! i = Some note
    /\ [tripPlan "t0"; mkNote "Shopping" "oat milk" "t1"] !! i
       = Some (mkNote (title note) (trim rawBody) (time_added note))
    /\ (forall j, j <> i ->
        [tripPlan "t0"; mkNote "Shopping" "oat milk" "t1"] !! j
        = [tripPlan "t0"; shopping "t1"] !! j)
    /\ length [tripPlan "t0"; mkNote "Shopping" "oat milk" "t1"]
       = length [tripPlan "t0"; shopping "t1"]
    /\ title <$> [tripPlan "t0"; mkNote "Shopping" "oat milk" "t1"]
       = title <$> [tripPlan "t0"; shopping "t1"]
    /\ time_added <$> [tripPlan "t0"; mkNote "Shopping" "oat milk" "t1"]
       = time_added <$> [tripPlan "t0"; shopping "t1"].
Proof.
  apply (updateNote_changes_only_body [tripPlan "t0"; shopping "t1"]
           (freshWorld ["SHOP"; " oat milk "])
           [tripPlan "t0"; mkNote "Shopping" "oat milk" "t1"]
           {| disk := Some (Readable (JSON_stringify
                 [tripPlan "t0"; mkNote "Shopping" "oat milk" "t1"]));
              writable := true; input := [];
              output := [Asked AskPartToUpdate; Asked AskNewBody; Updated] |}).
  - vm_compute. reflexivity.
  - reflexivity.
Defined.

(** C1, as stated, fails: with "Trip Plan" and "Trip Notes" stored,
    deleting by "trip" removes "Trip Plan", and a search for "trip"
    then finds "Trip Notes". *)
Lemma delete_then_find_counterexample :
  deleteNote [tripPlan "t0"; tripNotes "t1"] (freshWorld ["trip"])
  = Return [tripNotes "t1"]
      {| disk := Some (Readable (JSON_stringify [tripNotes "t1"]));
         writable := true; input := [];
         output := [Asked AskPartToDelete; Deleted "Trip Plan"] |}
  /\ findNoteByTitle [tripNotes "t1"] "trip" = Some (0, tripNotes "t1").
Proof. split; vm_compute; reflexivity. Qed.

(** C1, amended. For every repository state and every non-empty query,
    if [deleteNote] removes a note and that note was the only one whose
    title contains the query up to case, then [findNoteByTitle] with the
    same query finds nothing in the resulting state. *)
Theorem delete_then_find_none notes w notes' w' rawQuery rest :
  input w = rawQuery :: rest ->
  trim rawQuery <> "" ->
  deleteNote notes w = Return notes' w' ->
  length notes' < length notes ->
  (forall i j n m,
      notes !! i = Some n -> notes !! j = Some m ->
      titleContains (title n) (trim rawQuery) ->
      titleContains (title m) (trim rawQuery) -> i = j) ->
  findNoteByTitle notes' (trim rawQuery) = None.
Proof.
  intros Hin Hne H Hlen Honly. apply deleteNote_Return in H.
  destruct H as [line rest' Hin' Hb|line rest' Hin' Hb Hf
                |line rest' index deleted Hin' Hb Hf Hw]; try lia.
  rewrite Hin in Hin'. injection Hin' as -> ->.
  apply list_find_Some in Hf as (Hl & HP & _).
  assert (Hc : titleContains (title deleted) (trim line)).
  { destruct HP as [Hs|Hc]; [now apply sameTitle_titleContains|exact Hc]. }
  apply findNoteByTitle_none. intros m Hm Hcm.
  apply list_elem_of_lookup in Hm as [j Hj].
  destruct (decide (j < index)) as [Hlt|Hge].
  - rewrite list_lookup_delete_lt in Hj by exact Hlt.
    pose proof (Honly _ _ _ _ Hl Hj Hc Hcm). lia.
  - rewrite list_lookup_delete_ge in Hj by lia.
    pose proof (Honly _ _ _ _ Hl Hj Hc Hcm). lia.
Qed.

Lemma delete_then_find_none_witness :
  findNoteByTitle [shopping "t0"] (trim " trip ") = None.
Proof.
  apply (delete_then_find_none [shopping "t0"; tripPlan "t1"]
           (freshWorld [" trip "; "3"]) [shopping "t0"]
           {| disk := Some (Readable (JSON_stringify [shopping "t0"]));
              writable := true; input := ["3"];
              output := [Asked AskPartToDelete; Deleted "Trip Plan"] |}
           " trip " ["3"]).
  - reflexivity.
  - discriminate.
  - vm_compute. reflexivity.
  - simpl. lia.
  - intros [|[|i]] [|[|j]] n m Hn Hm Hcn Hcm; try reflexivity;
      simpl in Hn, Hm; try discriminate;
      injection Hn as <-; try injection Hm as <-; discriminate.
Defined.

(** The single scan of [deleteNote] stops at the first title that
    contains the query: a title equal to the query contains it, so the
    test for equality adds nothing. *)
Lemma deleteNote_scan query notes :
  list_find (titleIsOrIncludes query) notes
  = list_find (titleIncludes query) notes.
Proof.
  apply list_find_ext. intros n. unfold titleIsOrIncludes. split.
  - intros [Hs|Hc]; [|exact Hc]. unfold titleIs in Hs.
    unfold titleIncludes. rewrite Hs. apply includes_refl.
  - intros Hc. right. exact Hc.
Qed.

(** C2. [deleteNote] does not resolve its target the way [updateNote]
    does.  With "Shopping List" stored before "Shopping" (a state the
    operations reach), the query "shopping" makes [findNoteByTitle], and
    so [updateNote], pick the exact match "Shopping" at index 1, while
    [deleteNote] removes "Shopping List" at index 0: its single scan
    takes the first title that equals or contains the query. *)
Theorem deleteNote_removes_first_partial_match :
  reachable [shoppingList "t0"; shopping "t1"]
  /\ findNoteByTitle [shoppingList "t0"; shopping "t1"] "shopping"
     = Some (1, shopping "t1")
  /\ updateNote [shoppingList "t0"; shopping "t1"]
       (freshWorld ["shopping"; "tea"])
     = Return [shoppingList "t0"; mkNote "Shopping" "tea" "t1"]
         {| disk := Some (Readable (JSON_stringify
               [shoppingList "t0"; mkNote "Shopping" "tea" "t1"]));
            writable := true; input := [];
            output := [Asked AskPartToUpdate; Asked AskNewBody; Updated] |}
  /\ deleteNote [shoppingList "t0"; shopping "t1"] (freshWorld ["shopping"])
     = Return [shopping "t1"]
         {| disk := Some (Readable (JSON_stringify [shopping "t1"]));
            writable := true; input := [];
            output := [Asked AskPartToDelete; Deleted "Shopping List"] |}.
Proof.
  split; [|split; [|split]]; try (vm_compute; reflexivity).
  eapply reach_step; [eapply reach_step; [apply reach_empty|]|].
  - eapply (step_add [] _ "t0" (freshWorld ["Shopping List"; "bread"])).
    vm_compute. reflexivity.
  - eapply (step_add _ _ "t1" (freshWorld ["Shopping"; "milk, eggs"])).
    vm_compute. reflexivity.
Qed.

(** The guards of the callers: a query that is empty after trimming
    never reaches the search. *)
Lemma empty_query_refused notes w line rest :
  input w = line :: rest -> trim line = "" ->
  readNote notes w
  = Return tt (say TitleInputEmpty (with_input rest (say (Asked AskPart) w)))
  /\ updateNote notes w
     = Return notes (say TitleInputEmpty
                       (with_input rest (say (Asked AskPartToUpdate) w)))
  /\ deleteNote notes w
     = Return notes (say TitleInputEmpty
                       (with_input rest (say (Asked AskPartToDelete) w))).
Proof.
  intros Hin Hb. split; [|split].
  - unfold readNote. unfold mbind, M_bind.
    rewrite (question_trim_line _ _ _ _ Hin).
    rewrite decide_True by exact Hb. reflexivity.
  - apply updateNote_Return. eapply update_empty_input; eassumption.
  - apply deleteNote_Return. eapply delete_empty_input; eassumption.
Qed.

(** C3, as stated, fails: on a list that is not empty the empty query
    finds a note. *)
Lemma findNoteByTitle_empty_query_counterexample :
  findNoteByTitle [shopping "t0"] "" = Some (0, shopping "t0").
Proof. vm_compute. reflexivity. Qed.

(** C3, amended. [readNote], [updateNote] and [deleteNote] refuse a
    query that is empty after trimming before any search and leave the
    notes as they are; [findNoteByTitle] itself, given the empty string,
    finds nothing only in the empty list: in any other list it finds a
    note, the first one when no title is empty. *)
Theorem findNoteByTitle_empty_query notes :
  (findNoteByTitle notes "" = None <-> notes = [])
  /\ (forall n others,
        notes = n :: others -> (forall m, m ∈ notes -> title m <> "") ->
        findNoteByTitle notes "" = Some (0, n))
  /\ (forall w line rest,
        input w = line :: rest -> trim line = "" ->
        readNote notes w
        = Return tt (say TitleInputEmpty
                       (with_input rest (say (Asked AskPart) w)))
        /\ updateNote notes w
           = Return notes (say TitleInputEmpty
                             (with_input rest (say (Asked AskPartToUpdate) w)))
        /\ deleteNote notes w
           = Return notes (say TitleInputEmpty
                             (with_input rest (say (Asked AskPartToDelete) w)))).
Proof.
  split; [|split].
  - split.
    + intros H. destruct notes as [|n others]; [reflexivity|].
      exfalso. apply (proj1 (findNoteByTitle_none _ _) H n).
      * apply list_elem_of_here.
      * apply includes_empty.
    + intros ->. reflexivity.
  - intros n others -> Hne. unfold findNoteByTitle.
    assert (He : list_find (titleIs (toLowerCase "")) (n :: others) = None).
    { apply list_find_none_iff. intros m Hm Hs. apply (Hne m Hm).
      unfold titleIs in Hs. destruct (title m); [reflexivity|discriminate]. }
    rewrite He. apply list_find_Some. split; [reflexivity|].
    split; [apply includes_empty|]. intros j m _ Hj. lia.
  - intros w line rest. apply empty_query_refused.
Qed.

Lemma findNoteByTitle_empty_query_witness :
  findNoteByTitle [tripPlan "t0"; shopping "t1"] "" = Some (0, tripPlan "t0")
  /\ deleteNote [tripPlan "t0"] (freshWorld ["   "; "1"])
     = Return [tripPlan "t0"]
         (say TitleInputEmpty
            (with_input ["1"] (say (Asked AskPartToDelete)
                                  (freshWorld ["   "; "1"])))).
Proof.
  split.
  - apply (proj1 (proj2 (findNoteByTitle_empty_query
                           [tripPlan "t0"; shopping "t1"]))
                 (tripPlan "t0") [shopping "t1"]).
    + reflexivity.
    + intros m Hm. apply elem_of_cons in Hm as [->|Hm];
        [discriminate|].
      apply list_elem_of_singleton in Hm. subst m. discriminate.
  - apply (proj2 (proj2 (findNoteByTitle_empty_query [tripPlan "t0"]))
                 (freshWorld ["   "; "1"]) "   " ["1"]).
    + reflexivity.
    + reflexivity.
Defined.

(** C4, as stated, fails: a file holding the JSON text of an empty
    object exists and is not an array of notes, yet [loadNotes] returns
    its value to the caller and the process goes on. *)
Lemma loadNotes_counterexample :
  Expected.parses (Readable (Json (JObject []))) = false
  /\ loadNotes {| disk := Some (Readable (Json (JObject []))); writable := true;
                  input := []; output := [] |}
     = Return (JObject [])
         {| disk := Some (Readable (Json (JObject []))); writable := true;
            input := []; output := [] |}.
Proof. split; reflexivity. Qed.

(** C4, amended. For every notes file that exists but cannot be read, or
    whose text is not JSON, [loadNotes] reports the error and the process
    ends with status 1, nothing being returned to the caller; a file
    whose text is JSON is returned as parsed, whatever its structure. *)
Theorem loadNotes_unreadable_or_not_json w f :
  disk w = Some f ->
  ((f = Unreadable \/ f = Readable NotJson) ->
   loadNotes w = Exit 1 (say ErrorReading w))
  /\ (forall v, f = Readable (Json v) -> loadNotes w = Return v w).
Proof.
  intros Hd. unfold loadNotes. rewrite Hd. split.
  - intros [->| ->]; reflexivity.
  - intros v ->. reflexivity.
Qed.

Lemma loadNotes_unreadable_or_not_json_witness :
  loadNotes {| disk := Some (Readable NotJson); writable := true;
               input := ["1"]; output := [] |}
  = Exit 1 {| disk := Some (Readable NotJson); writable := true;
              input := ["1"]; output := [ErrorReading] |}.
Proof.
  apply (proj1 (loadNotes_unreadable_or_not_json
                  {| disk := Some (Readable NotJson); writable := true;
                     input := ["1"]; output := [] |}
                  (Readable NotJson) eq_refl)).
  right. reflexivity.
Defined.

Lemma reachable_uniqueTitles notes : reachable notes -> uniqueTitles notes.
Proof.
  induction 1 as [|notes notes' _ IH Hstep]; [apply NoDup_nil_2|].
  exact (uniqueTitles_step notes notes' IH Hstep).
Qed.

Lemma reachable_tidy notes : reachable notes -> Forall tidyNote notes.
Proof.
  induction 1 as [|notes notes' _ IH Hstep]; [constructor|].
  exact (tidyNotes_step notes notes' IH Hstep).
Qed.

(** C7. In every state the operations [addNote], [updateNote] and
    [deleteNote] reach from the empty repository no two notes have
    titles equal up to case, and each operation that returns keeps the
    property. *)
Theorem unique_titles_invariant :
  (forall notes, reachable notes -> uniqueTitles notes)
  /\ (forall notes notes',
        uniqueTitles notes -> step notes notes' -> uniqueTitles notes').
Proof. split; [exact reachable_uniqueTitles|exact uniqueTitles_step]. Qed.

Lemma unique_titles_invariant_witness :
  reachable [shopping "t0"; shoppingList "t1"]
  /\ uniqueTitles [shopping "t0"; shoppingList "t1"].
Proof.
  assert (Hr : reachable [shopping "t0"; shoppingList "t1"]).
  { eapply reach_step; [eapply reach_step; [apply reach_empty|]|].
    - eapply (step_add [] _ "t0" (freshWorld ["Shopping"; "milk, eggs"])).
      vm_compute. reflexivity.
    - eapply (step_add _ _ "t1" (freshWorld ["Shopping List"; "bread"])).
      vm_compute. reflexivity. }
  split; [exact Hr|].
  exact (proj1 unique_titles_invariant _ Hr).
Defined.

Lemma mainLoopBody_blank_choice notes now w line rest :
  input w = line :: rest -> trim line = "" ->
  exists w',
    mainLoopBody notes now w = Return notes w'
    /\ last (output w') = Some InvalidChoice
    /\ input w' = rest /\ disk w' = disk w.
Proof.
  intros Hin Hb. eexists. split.
  - unfold mainLoopBody, mbind, M_bind, fmap, M_fmap, question. simpl.
    rewrite Hin, Hb. reflexivity.
  - simpl. split; [apply last_snoc|]. split; reflexivity.
Qed.

(** C10. Every line typed at a prompt (title, body, query, menu choice)
    is trimmed before it is validated or matched: one round of the menu,
    and [getValidatedTitle], see the lines only through [trim].  A line
    of white space only is therefore empty: the title and body prompts
    print their message and ask again, the query prompts and the new-body
    prompt report the empty input and leave the notes alone, the menu
    reports an invalid choice.  Hence in every state reached from the
    empty repository each title and body is non-empty and has no white
    space at either end. *)
Theorem inputs_are_trimmed notes now :
  (trimsInput (mainLoopBody notes now) /\ trimsInput getValidatedTitle)
  /\ (forall w line rest,
        input w = line :: rest -> onlyWhiteSpace line = true ->
        trim line = ""
        /\ (forall p m,
              questionUntilFilled p m w
              = questionUntilFilled p m
                  (say m (with_input rest (say (Asked p) w))))
        /\ addNote notes now w
           = addNote notes now
               (say TitleEmpty (with_input rest (say (Asked AskTitle) w)))
        /\ getValidatedTitle w
           = getValidatedTitle
               (say TitleEmptyPleaseEnter
                    (with_input rest (say (Asked AskANoteTitle) w)))
        /\ readNote notes w
           = Return tt (say TitleInputEmpty
                          (with_input rest (say (Asked AskPart) w)))
        /\ deleteNote notes w
           = Return notes (say TitleInputEmpty
                             (with_input rest (say (Asked AskPartToDelete) w)))
        /\ updateNote notes w
           = Return notes (say TitleInputEmpty
                             (with_input rest (say (Asked AskPartToUpdate) w)))
        /\ (exists w', mainLoopBody notes now w = Return notes w'
                       /\ last (output w') = Some InvalidChoice
                       /\ input w' = rest /\ disk w' = disk w))
  /\ (forall w rawQuery line rest i note,
        input w = rawQuery :: line :: rest -> trim rawQuery <> "" ->
        findNoteByTitle notes (trim rawQuery) = Some (i, note) ->
        onlyWhiteSpace line = true ->
        updateNote notes w
        = Return notes
            (say BodyEmpty
               (with_input rest (say (Asked AskNewBody)
                  (with_input (line :: rest)
                              (say (Asked AskPartToUpdate) w))))))
  /\ (forall notes' w w',
        addNote notes now w = Return notes' w' ->
        notes' = notes
        \/ exists ttl bdy, entered ttl /\ entered bdy
                           /\ notes' = notes ++ [mkNote ttl bdy now])
  /\ (reachable notes -> Forall tidyNote notes).
Proof.
  split; [split; [apply trimsInput_mainLoopBody|apply trimsInput_getValidatedTitle]|].
  split; [|split; [|split]].
  - intros w line rest Hin Hws. apply onlyWhiteSpace_trim in Hws as Hb.
    split; [exact Hb|].
    split; [intros p m; now apply (questionUntilFilled_blank p m w line rest)|].
    split.
    { unfold addNote. unfold mbind at 1 3, M_bind at 1 3.
      now rewrite (questionUntilFilled_blank _ _ w line rest). }
    split; [now apply (questionUntilFilled_blank _ _ w line rest)|].
    destruct (empty_query_refused notes w line rest Hin Hb)
      as (Hr & Hu & Hd).
    split; [exact Hr|]. split; [exact Hd|]. split; [exact Hu|].
    exact (mainLoopBody_blank_choice notes now w line rest Hin Hb).
  - intros w rawQuery line rest i note Hin Hq Hf Hws.
    apply onlyWhiteSpace_trim in Hws.
    apply updateNote_Return. eapply update_empty_body; eassumption.
  - intros notes' w w' H.
    apply addNote_Return in H as [[-> _]|(ttl & bdy & ? & ? & _ & -> & _)];
      [left; reflexivity|right; eauto].
  - apply reachable_tidy.
Qed.

Lemma inputs_are_trimmed_witness :
  (trim " " = ""
   /\ deleteNote [shopping "t0"] (freshWorld [" "; "6"])
      = Return [shopping "t0"]
          (say TitleInputEmpty
             (with_input ["6"] (say (Asked AskPartToDelete)
                                   (freshWorld [" "; "6"])))))
  /\ Forall tidyNote [shopping "t0"].
Proof.
  assert (Hr : reachable [shopping "t0"]).
  { eapply reach_step; [apply reach_empty|].
    eapply (step_add [] _ "t0" (freshWorld [" Shopping"; "milk, eggs  "])).
    vm_compute. reflexivity. }
  destruct (inputs_are_trimmed [shopping "t0"] "t1") as (_ & Hblank & _ & _ & Htidy).
  destruct (Hblank (freshWorld [" "; "6"]) " " ["6"] eq_refl eq_refl)
    as (Hb & _ & _ & _ & _ & Hd & _).
  split; [split; [exact Hb|exact Hd]|]. exact (Htidy Hr).
Defined.

(** * Further properties of the program *)

(** ** Computations that read and print *)

Create HintDb quiet.

Section Quiet.

Lemma quiet_ret {A} (a : A) : quiet (mret a).
Proof. intros w. simpl. auto. Qed.

Lemma quiet_log m : quiet (log m).
Proof. intros w. simpl. auto. Qed.

Lemma quiet_bind {A B} (m : M A) (k : A -> M B) :
  quiet m -> (forall a, quiet (k a)) -> quiet (m ≫= k).
Proof.
  intros Hm Hk w. unfold mbind, M_bind. specialize (Hm w).
  destruct (m w) as [a w1| |]; [|contradiction|exact Hm].
  destruct Hm as (Hd & Hw & Hs). specialize (Hk a w1).
  destruct (k a w1) as [b w2| |]; [|contradiction|].
  - destruct Hk as (Hd2 & Hw2 & Hs2).
    split; [congruence|]. split; [congruence|]. now transitivity (input w1).
  - destruct Hk as (Hd2 & Hw2 & Hs2). repeat split; congruence.
Qed.

Lemma quiet_question p : quiet (trim <$> question p).
Proof.
  intros w. unfold fmap, M_fmap, question.
  destruct (input w) as [|line rest] eqn:Hin; simpl.
  - auto.
  - split; [reflexivity|]. split; [reflexivity|]. apply suffix_cons_r. reflexivity.
Qed.

Lemma quiet_questionUntilFilled_from p m lines : forall w,
  input w = lines ->
  match questionUntilFilled_from p m lines w with
  | Return _ w' =>
      disk w' = disk w /\ writable w' = writable w /\ input w' `suffix_of` lines
  | Exit _ _ => False
  | Blocked w' => disk w' = disk w /\ writable w' = writable w /\ input w' = []
  end.
Proof.
  induction lines as [|line rest IH]; intros w Hin; simpl.
  - auto.
  - destruct (decide (trim line = "")) as [Hb|Hb].
    + specialize (IH (say m (with_input rest (say (Asked p) w))) eq_refl).
      destruct (questionUntilFilled_from p m rest _) as [x w'| |]; [|exact IH..].
      destruct IH as (Hd & Hw & Hs). split; [exact Hd|]. split; [exact Hw|].
      now apply suffix_cons_r.
    + simpl. split; [reflexivity|]. split; [reflexivity|].
      apply suffix_cons_r. reflexivity.
Qed.

Lemma quiet_questionUntilFilled p m : quiet (questionUntilFilled p m).
Proof.
  intros w. unfold questionUntilFilled.
  exact (quiet_questionUntilFilled_from p m (input w) w eq_refl).
Qed.

Lemma quiet_logAll ms : quiet (logAll ms).
Proof.
  induction ms as [|m ms IH]; simpl; [apply quiet_ret|].
  apply quiet_bind; [apply quiet_log|intros _; exact IH].
Qed.

End Quiet.

#[export] Hint Resolve quiet_ret quiet_log quiet_question
  quiet_questionUntilFilled quiet_logAll : quiet.

Ltac quiet :=
  repeat first
    [ solve [auto with quiet]
    | case_decide
    | apply quiet_bind; [|intros ?] ].

Lemma quiet_listAllNotes notes : quiet (listAllNotes notes).
Proof. unfold listAllNotes. quiet. Qed.

Lemma quiet_readNote notes : quiet (readNote notes).
Proof.
  unfold readNote. quiet.
  destruct (findNoteByTitle notes _) as [[i note]|]; quiet.
Qed.

#[export] Hint Resolve quiet_listAllNotes quiet_readNote : quiet.

(** ** The discipline of the operations *)

Create HintDb discipline.

Section Discipline.

Lemma quiet_disciplined {A} bye (m : M A) : quiet m -> disciplined bye m.
Proof.
  intros Hm w. specialize (Hm w).
  destruct (m w) as [a w'| |]; [|contradiction|exact Hm].
  destruct Hm as (_ & Hw & Hs). split; assumption.
Qed.

Lemma disciplined_weaken {A} (m : M A) : disciplined false m -> disciplined true m.
Proof.
  intros Hm w. specialize (Hm w).
  destruct (m w) as [a w'|code w'|w']; [exact Hm| |exact Hm].
  destruct Hm as (Hd & Hw & [Hc|(Hf & _)]); [|discriminate].
  split; [exact Hd|]. split; [exact Hw|]. left. exact Hc.
Qed.

Lemma prints_ret {A} (a : A) : prints (mret a).
Proof. intros w. exists a, w. repeat split. Qed.

Lemma prints_log_then {A} m (k : M A) : prints k -> prints (log m ≫= fun _ => k).
Proof.
  intros Hk w. unfold mbind, M_bind, log.
  destruct (Hk (say m w)) as (a & w' & -> & Hd & Hw & Hi).
  exists a, w'. repeat split; assumption.
Qed.

Lemma disciplined_bind {A B} bye (m : M A) (k : A -> M B) :
  quiet m -> (forall a, disciplined bye (k a)) -> disciplined bye (m ≫= k).
Proof.
  intros Hm Hk w. unfold mbind, M_bind. specialize (Hm w).
  destruct (m w) as [a w1| |]; [|contradiction|exact Hm].
  destruct Hm as (Hd & Hw & Hs). specialize (Hk a w1).
  destruct (k a w1) as [b w2|code w2|w2].
  - destruct Hk as (Hw2 & Hs2). split; [congruence|]. now transitivity (input w1).
  - destruct Hk as (Hd2 & Hw2 & Hc). split; [congruence|]. split; [congruence|].
    destruct Hc as [(-> & Hf & Hl)|(Hb & -> & Hl)]; [left|right]; repeat split;
      congruence.
  - destruct Hk as (Hd2 & Hw2 & Hi). repeat split; congruence.
Qed.

Lemma disciplined_then_prints {A B} bye (m : M A) (k : A -> M B) :
  disciplined bye m -> (forall a, prints (k a)) -> disciplined bye (m ≫= k).
Proof.
  intros Hm Hk w. unfold mbind, M_bind. specialize (Hm w).
  destruct (m w) as [a w1| |]; [|exact Hm..].
  destruct (Hk a w1) as (b & w2 & -> & Hd & Hw & Hi).
  destruct Hm as (Hw1 & Hs1). split; congruence.
Qed.

Lemma disciplined_saveNotes notes : disciplined false (saveNotes notes).
Proof.
  intros w. unfold saveNotes. destruct (writable w) eqn:Hw; simpl.
  - split; [exact Hw|reflexivity].
  - split; [reflexivity|]. split; [exact Hw|]. left.
    split; [reflexivity|]. split; [reflexivity|]. apply last_snoc.
Qed.

Lemma disciplined_save_and_report notes m (notes' : list Note) :
  disciplined false
    (saveNotes notes ≫= fun _ => log m ≫= fun _ => mret notes').
Proof.
  apply disciplined_then_prints; [apply disciplined_saveNotes|].
  intros _. apply prints_log_then, prints_ret.
Qed.

Lemma disciplined_goodbye {A} :
  disciplined true (log Goodbye ≫= fun _ => @exit A 0).
Proof.
  intros w. unfold mbind, M_bind, log, exit. simpl.
  split; [reflexivity|]. split; [reflexivity|]. right.
  split; [reflexivity|]. split; [reflexivity|]. apply last_snoc.
Qed.

End Discipline.

#[export] Hint Resolve disciplined_save_and_report disciplined_goodbye
  : discipline.

Ltac discipline :=
  repeat first
    [ solve [auto with discipline]
    | solve [apply disciplined_weaken; auto with discipline]
    | solve [apply quiet_disciplined; quiet]
    | case_decide
    | apply disciplined_bind; [solve [quiet]|intros ?] ].

Lemma disciplined_addNote notes now : disciplined false (addNote notes now).
Proof. unfold addNote. discipline. Qed.

Lemma disciplined_deleteNote notes : disciplined false (deleteNote notes).
Proof.
  unfold deleteNote. discipline.
  destruct (list_find _ notes) as [[i note]|]; discipline.
Qed.

Lemma disciplined_updateNote notes : disciplined false (updateNote notes).
Proof.
  unfold updateNote. discipline.
  destruct (findNoteByTitle notes _) as [[i note]|]; discipline.
Qed.

#[export] Hint Resolve disciplined_addNote disciplined_deleteNote
  disciplined_updateNote : discipline.

Lemma disciplined_mainLoopBody notes now :
  disciplined true (mainLoopBody notes now).
Proof. unfold mainLoopBody. discipline. Qed.


(** ** Reading, listing and the discipline of every operation *)

(** X1. [listAllNotes] and [readNote] only read and print: on every
    world they never end the process, leave the notes file and its
    permissions as they are, use up lines from the front only, and wait
    only when no line is left. *)
Theorem listing_and_reading_are_quiet notes :
  quiet (listAllNotes notes) /\ quiet (readNote notes).
Proof. split; [apply quiet_listAllNotes|apply quiet_readNote]. Qed.

(** X2. [addNote], [updateNote] and [deleteNote] end the process only
    with status 1, right after reporting a failed write, the notes file
    being untouched; they wait only when no line is left and the file is
    untouched; they use up lines from the front.  A round of the menu
    does the same, and may also end the process with status 0 right
    after the goodbye. *)
Theorem operations_are_disciplined notes now :
  disciplined false (addNote notes now)
  /\ disciplined false (updateNote notes)
  /\ disciplined false (deleteNote notes)
  /\ disciplined true (mainLoopBody notes now).
Proof.
  split; [apply disciplined_addNote|].
  split; [apply disciplined_updateNote|].
  split; [apply disciplined_deleteNote|apply disciplined_mainLoopBody].
Qed.

(** ** The notes file mirrors the notes *)

Lemma logAll_Return ms : forall w,
  exists w',
    logAll ms w = Return tt w' /\ disk w' = disk w
    /\ writable w' = writable w /\ input w' = input w
    /\ output w' = output w ++ ms.
Proof.
  induction ms as [|m ms IH]; intros w; simpl.
  - exists w. rewrite app_nil_r. repeat split.
  - unfold mbind, M_bind, log.
    destruct (IH (say m w)) as (w' & -> & Hd & Hw & Hi & Ho).
    exists w'. split; [reflexivity|]. split; [exact Hd|]. split; [exact Hw|].
    split; [exact Hi|]. rewrite Ho. simpl. now rewrite <- app_assoc.
Qed.

Lemma addNote_writes notes now w notes' w' :
  addNote notes now w = Return notes' w' ->
  (notes' = notes /\ disk w' = disk w) \/ mirrored notes' w'.
Proof.
  intros H.
  apply addNote_Return in H as [Hsame|(ttl & bdy & _ & _ & _ & _ & Hd)];
    [left; exact Hsame|right; exact Hd].
Qed.

Lemma updateNote_writes notes w notes' w' :
  updateNote notes w = Return notes' w' ->
  (notes' = notes /\ disk w' = disk w) \/ mirrored notes' w'.
Proof.
  intros H. apply updateNote_Return in H.
  destruct H; [left; split; reflexivity..|right; reflexivity].
Qed.

Lemma deleteNote_writes notes w notes' w' :
  deleteNote notes w = Return notes' w' ->
  (notes' = notes /\ disk w' = disk w) \/ mirrored notes' w'.
Proof.
  intros H. apply deleteNote_Return in H.
  destruct H; [left; split; reflexivity..|right; reflexivity].
Qed.

Lemma quiet_Return {A} (m : M A) w a w' :
  quiet m -> m w = Return a w' -> disk w' = disk w.
Proof. intros Hm H. specialize (Hm w). rewrite H in Hm. apply Hm. Qed.

(** What a round of the menu that returns has done. *)
Lemma mainLoopBody_Return notes now w notes' w' :
  mainLoopBody notes now w = Return notes' w' ->
  (exists line rest, input w = line :: rest /\ input w' `suffix_of` rest)
  /\ writable w' = writable w
  /\ ((notes' = notes /\ disk w' = disk w)
      \/ (step notes notes' /\ mirrored notes' w')).
Proof.
  intros H.
  pose proof (disciplined_mainLoopBody notes now w) as Hdisc.
  rewrite H in Hdisc. destruct Hdisc as (Hwr & _).
  unfold mainLoopBody in H. unfold mbind at 1, M_bind at 1 in H.
  destruct (logAll_Return [MenuHeader; MenuItem 1; MenuItem 2; MenuItem 3;
                           MenuItem 4; MenuItem 5; MenuItem 6] w)
    as (w1 & Hl & Hd1 & Hw1 & Hi1 & _).
  rewrite Hl in H. unfold mbind at 1, M_bind at 1 in H.
  destruct ((trim <$> question AskChoice) w1) as [choice w2| |] eqn:Hq;
    [|discriminate..].
  apply question_trim_Return in Hq as (line & rest & Hin & -> & ->).
  rewrite Hi1 in Hin.
  set (w2 := with_input rest (say (Asked AskChoice) w1)) in *.
  assert (Hd2 : disk w2 = disk w) by exact Hd1.
  assert (Hsuf : forall (m : M (list Note)),
             disciplined true m -> m w2 = Return notes' w' ->
             input w' `suffix_of` rest).
  { intros m Hm Hr. specialize (Hm w2). rewrite Hr in Hm. apply Hm. }
  split; [|split; [exact Hwr|]].
  - exists line, rest. split; [exact Hin|]. revert H. repeat case_decide; intros Hrun.
    + eapply Hsuf; [|exact Hrun]. apply disciplined_weaken, disciplined_addNote.
    + eapply Hsuf; [|exact Hrun]. apply quiet_disciplined. quiet.
    + eapply Hsuf; [|exact Hrun]. apply quiet_disciplined. quiet.
    + eapply Hsuf; [|exact Hrun]. apply disciplined_weaken, disciplined_deleteNote.
    + eapply Hsuf; [|exact Hrun]. apply disciplined_weaken, disciplined_updateNote.
    + discriminate.
    + injection Hrun as <- <-. reflexivity.
  - revert H. repeat case_decide; intros Hrun.
    + pose proof (addNote_writes _ _ _ _ _ Hrun) as [[-> Hd]|Hm];
        [left; split; [reflexivity|congruence]|].
      right. split; [eapply step_add; exact Hrun|exact Hm].
    + left. unfold mbind, M_bind in Hrun.
      destruct (listAllNotes notes w2) as [u w3| |] eqn:Hr; [|discriminate..].
      injection Hrun as <- <-. split; [reflexivity|].
      rewrite (quiet_Return _ _ _ _ (quiet_listAllNotes notes) Hr). exact Hd2.
    + left. unfold mbind, M_bind in Hrun.
      destruct (readNote notes w2) as [u w3| |] eqn:Hr; [|discriminate..].
      injection Hrun as <- <-. split; [reflexivity|].
      rewrite (quiet_Return _ _ _ _ (quiet_readNote notes) Hr). exact Hd2.
    + pose proof (deleteNote_writes _ _ _ _ Hrun) as [[-> Hd]|Hm];
        [left; split; [reflexivity|congruence]|].
      right. split; [eapply step_delete; exact Hrun|exact Hm].
    + pose proof (updateNote_writes _ _ _ _ Hrun) as [[-> Hd]|Hm];
        [left; split; [reflexivity|congruence]|].
      right. split; [eapply step_update; exact Hrun|exact Hm].
    + discriminate.
    + injection Hrun as <- <-. left. split; [reflexivity|exact Hd2].
Qed.

(** X3. An operation that returns has either left the notes and the
    notes file both as they were, or written to the file exactly the
    notes it returns.  So when the file mirrors the notes before
    [addNote], [updateNote], [deleteNote] or a round of the menu, it
    mirrors the notes they return. *)
Theorem file_mirrors_notes notes w notes' w' :
  mirrored notes w ->
  (forall now, addNote notes now w = Return notes' w' -> mirrored notes' w')
  /\ (updateNote notes w = Return notes' w' -> mirrored notes' w')
  /\ (deleteNote notes w = Return notes' w' -> mirrored notes' w')
  /\ (forall now, mainLoopBody notes now w = Return notes' w' ->
      mirrored notes' w').
Proof.
  intros Hm. unfold mirrored in *. split; [|split; [|split]].
  - intros now H. apply addNote_writes in H as [[-> Hd]|Hw]; [congruence|exact Hw].
  - intros H. apply updateNote_writes in H as [[-> Hd]|Hw]; [congruence|exact Hw].
  - intros H. apply deleteNote_writes in H as [[-> Hd]|Hw]; [congruence|exact Hw].
  - intros now H. apply mainLoopBody_Return in H as (_ & _ & [[-> Hd]|[_ Hw]]);
      [congruence|exact Hw].
Qed.

Lemma file_mirrors_notes_witness :
  mirrored [shopping "t0"; mkNote "Trip Plan" "pack bags" "t1"]
    {| disk := Some (Readable (JSON_stringify
                 [shopping "t0"; mkNote "Trip Plan" "pack bags" "t1"]));
       writable := true; input := ["2"];
       output := [Asked AskTitle; Asked AskBody; Added] |}.
Proof.
  apply (proj1 (file_mirrors_notes [shopping "t0"]
                  {| disk := Some (Readable (JSON_stringify [shopping "t0"]));
                     writable := true;
                     input := [" Trip Plan"; "pack bags "; "2"];
                     output := [] |}
                  [shopping "t0"; mkNote "Trip Plan" "pack bags" "t1"]
                  {| disk := Some (Readable (JSON_stringify
                        [shopping "t0"; mkNote "Trip Plan" "pack bags" "t1"]));
                     writable := true; input := ["2"];
                     output := [Asked AskTitle; Asked AskBody; Added] |}
                  eq_refl) "t1").
  vm_compute. reflexivity.
Defined.


(** ** Loading and saving *)

(** X4. When the notes file does not exist, [loadNotes] writes the
    empty array, returns it, and a second [loadNotes] returns the same
    without writing; if that first write fails the process ends with
    status 1.  When the file exists, [loadNotes] never changes the world
    except for printing the read error. *)
Theorem loadNotes_missing_file w :
  (disk w = None -> writable w = true ->
   loadNotes w = Return (JArray []) (with_disk (Readable (JSON_stringify [])) w)
   /\ loadNotes (with_disk (Readable (JSON_stringify [])) w)
      = Return (JArray []) (with_disk (Readable (JSON_stringify [])) w))
  /\ (disk w = None -> writable w = false ->
      loadNotes w = Exit 1 (say ErrorWriting w))
  /\ (forall f, disk w = Some f ->
      loadNotes w = Exit 1 (say ErrorReading w)
      \/ exists v, loadNotes w = Return v w).
Proof.
  split; [|split].
  - intros Hd Hw. unfold loadNotes. rewrite Hd.
    unfold mbind, M_bind, saveNotes. rewrite Hw. split; reflexivity.
  - intros Hd Hw. unfold loadNotes. rewrite Hd.
    unfold mbind, M_bind, saveNotes. rewrite Hw. reflexivity.
  - intros f Hd. unfold loadNotes. rewrite Hd.
    destruct f as [|[|v]]; simpl; eauto.
Qed.

Lemma loadNotes_missing_file_witness :
  loadNotes (freshWorld ["2"])
  = Return (JArray [])
      {| disk := Some (Readable (Json (JArray []))); writable := true;
         input := ["2"]; output := [] |}.
Proof.
  exact (proj1 (proj1 (loadNotes_missing_file (freshWorld ["2"]))
                      eq_refl eq_refl)).
Defined.

Lemma note_of_json_of_note n : note_of_json (json_of_note n) = Some n.
Proof. destruct n as [t b a]. reflexivity. Qed.

Lemma notes_of_json_of_notes notes :
  notes_of_json (JArray (json_of_note <$> notes)) = Some notes.
Proof.
  simpl. apply mapM_Some. induction notes as [|n notes IH]; simpl.
  - constructor.
  - constructor; [apply note_of_json_of_note|exact IH].
Qed.




(** ** Sessions *)

Lemma steps_step_l notes notes1 notes2 :
  step notes notes1 -> steps notes1 notes2 -> steps notes notes2.
Proof.
  intros H1 H2. induction H2 as [|notes2 notes3 _ IH H3].
  - eapply steps_step; [apply steps_refl|exact H1].
  - eapply steps_step; [exact IH|exact H3].
Qed.

Lemma reachable_steps notes notes' :
  reachable notes -> steps notes notes' -> reachable notes'.
Proof.
  intros Hr Hs. induction Hs as [|notes1 notes2 _ IH H]; [exact Hr|].
  eapply reach_step; [exact IH|exact H].
Qed.

Lemma mainLoop_run clock fuel : forall round notes w,
  length (input w) < fuel ->
  exists o notes',
    mainLoop clock round fuel notes w = Ended o
    /\ sessionEnd w o
    /\ steps notes notes'
    /\ (mirrored notes w -> mirrored notes' (world_of o)).
Proof.
  induction fuel as [|fuel IH]; intros round notes w Hlen; [lia|].
  simpl.
  pose proof (disciplined_mainLoopBody notes (clock round) w) as Hdisc.
  destruct (mainLoopBody notes (clock round) w) as [notes1 w1|code w1|w1] eqn:Hb.
  - apply mainLoopBody_Return in Hb
      as ((line & rest & Hin & Hsuf) & Hwr & Hnotes).
    apply suffix_length in Hsuf. rewrite Hin in Hlen. simpl in Hlen.
    destruct (IH (S round) notes1 w1 ltac:(lia)) as (o & notes' & Hrun & Hend & Hst & Hmir).
    exists o, notes'. split; [exact Hrun|]. split; [|split].
    + destruct o as [[]|code w'|w']; simpl in *; rewrite <- Hwr; exact Hend.
    + destruct Hnotes as [[-> _]|[Hstep _]]; [exact Hst|].
      eapply steps_step_l; eassumption.
    + intros Hm. apply Hmir. unfold mirrored in *.
      destruct Hnotes as [[-> Hd]|[_ Hm1]]; [congruence|exact Hm1].
  - exists (Exit code w1), notes. split; [reflexivity|].
    destruct Hdisc as (Hd & Hwr & Hc). split; [|split].
    + simpl. split; [exact Hwr|].
      destruct Hc as [(-> & Hf & Hl)|(_ & -> & Hl)]; [right|left]; auto.
    + apply steps_refl.
    + unfold mirrored. simpl. congruence.
  - exists (Blocked w1), notes. split; [reflexivity|].
    destruct Hdisc as (Hd & Hwr & Hi). split; [|split].
    + simpl. split; assumption.
    + apply steps_refl.
    + unfold mirrored. simpl. congruence.
Qed.

(** X6. The menu loop comes to an end on every finite script: within
    one round more than there are lines to type, the process has ended
    with status 0 right after the goodbye, or with status 1 right after
    reporting a failed write (only when writes fail), or it waits with no
    line left. *)
Theorem mainLoop_ends clock round fuel notes w :
  length (input w) < fuel ->
  exists o, mainLoop clock round fuel notes w = Ended o /\ sessionEnd w o.
Proof.
  intros Hlen.
  destruct (mainLoop_run clock fuel round notes w Hlen) as (o & _ & Hrun & Hend & _).
  exists o. split; assumption.
Qed.

Lemma mainLoop_ends_witness :
  exists o,
    mainLoop (fun _ => "t") 0 3 [shopping "t0"]
      {| disk := Some (Readable (JSON_stringify [shopping "t0"]));
         writable := true; input := ["2"; " 6 "]; output := [] |}
    = Ended o
    /\ sessionEnd
         {| disk := Some (Readable (JSON_stringify [shopping "t0"]));
            writable := true; input := ["2"; " 6 "]; output := [] |} o.
Proof.
  apply (mainLoop_ends (fun _ => "t") 0 3 [shopping "t0"]
           {| disk := Some (Readable (JSON_stringify [shopping "t0"]));
              writable := true; input := ["2"; " 6 "]; output := [] |}).
  simpl. lia.
Defined.

(** X7. A session started without a notes file (writes succeeding), or
    with a file that mirrors notes reached from the empty repository,
    ends leaving a file that again mirrors notes reached from the empty
    repository: an array of notes whose titles differ up to case and
    whose titles and bodies are non-empty and trimmed. *)
Theorem session_leaves_notes_file clock fuel w :
  (disk w = None /\ writable w = true)
  \/ (exists notes, reachable notes /\ mirrored notes w) ->
  length (input w) < fuel ->
  exists o notes',
    main clock fuel w = Ended o
    /\ sessionEnd w o
    /\ reachable notes' /\ mirrored notes' (world_of o)
    /\ uniqueTitles notes' /\ Forall tidyNote notes'.
Proof.
  intros Hstart Hlen.
  assert (Hgo : exists notes w1,
             loadNotes w = Return (JArray (json_of_note <$> notes)) w1
             /\ reachable notes /\ mirrored notes w1
             /\ input w1 = input w /\ writable w1 = writable w).
  { destruct Hstart as [[Hd Hw]|(notes & Hr & Hm)].
    - exists [], (with_disk (Readable (JSON_stringify [])) w).
      split; [exact (proj1 (proj1 (loadNotes_missing_file w) Hd Hw))|].
      split; [apply reach_empty|]. repeat split.
    - exists notes, w. split; [|repeat split; assumption].
      unfold loadNotes. unfold mirrored in Hm. rewrite Hm. reflexivity. }
  destruct Hgo as (notes & w1 & Hload & Hr & Hm & Hi & Hw).
  destruct (mainLoop_run clock fuel 0 notes w1 ltac:(rewrite Hi; exact Hlen))
    as (o & notes' & Hrun & Hend & Hst & Hmir).
  pose proof (reachable_steps _ _ Hr Hst) as Hr'.
  exists o, notes'. split; [|split; [|split; [exact Hr'|split; [exact (Hmir Hm)|]]]].
  - unfold main. rewrite Hload, notes_of_json_of_notes. exact Hrun.
  - destruct o as [[]|code w'|w']; simpl in *; rewrite <- Hw; exact Hend.
  - split; [apply reachable_uniqueTitles|apply reachable_tidy]; exact Hr'.
Qed.

Lemma session_leaves_notes_file_witness :
  exists o notes',
    main (fun _ => "t") 4 (freshWorld ["1"; " Trip Plan "; "pack bags"])
    = Ended o
    /\ sessionEnd (freshWorld ["1"; " Trip Plan "; "pack bags"]) o
    /\ reachable notes' /\ mirrored notes' (world_of o)
    /\ uniqueTitles notes' /\ Forall tidyNote notes'.
Proof.
  apply (session_leaves_notes_file (fun _ => "t") 4
           (freshWorld ["1"; " Trip Plan "; "pack bags"])).
  - left. split; reflexivity.
  - simpl. lia.
Defined.


(** ** Searching *)

Lemma lowerUnit_lowerUnit c : lowerUnit (lowerUnit c) = lowerUnit c.
Proof. destruct c as [[] [] [] [] [] [] [] []]; reflexivity. Qed.

Lemma toLowerCase_toLowerCase s : toLowerCase (toLowerCase s) = toLowerCase s.
Proof.
  induction s as [|c s IH]; simpl; [reflexivity|].
  now rewrite lowerUnit_lowerUnit, IH.
Qed.

(** Two scans whose tests agree note by note stop at the same index. *)
Lemma list_find_same_index (P Q : Note -> Prop)
      `{!forall n, Decision (P n)} `{!forall n, Decision (Q n)}
      (notes1 notes2 : list Note) :
  Forall2 (fun a b => P a <-> Q b) notes1 notes2 ->
  fst <$> list_find P notes1 = fst <$> list_find Q notes2.
Proof.
  induction 1 as [|a b l1 l2 Hab _ IH]; [reflexivity|]. simpl.
  destruct (decide (P a)) as [Ha|Ha], (decide (Q b)) as [Hb|Hb];
    try (exfalso; tauto); [reflexivity|].
  destruct (list_find P l1) as [[i x]|], (list_find Q l2) as [[j y]|];
    simpl in *; congruence.
Qed.

Lemma findNoteByTitle_same_index notes1 notes2 q1 q2 :
  Forall2 (fun a b => sameTitle (title a) (title b)) notes1 notes2 ->
  sameTitle q1 q2 ->
  fst <$> findNoteByTitle notes1 q1 = fst <$> findNoteByTitle notes2 q2.
Proof.
  intros Hn Hq. unfold sameTitle in Hq. unfold findNoteByTitle.
  assert (He : fst <$> list_find (titleIs (toLowerCase q1)) notes1
               = fst <$> list_find (titleIs (toLowerCase q2)) notes2).
  { apply list_find_same_index. eapply Forall2_impl; [exact Hn|].
    intros a b Hab. unfold titleIs, sameTitle in *. rewrite Hab, Hq. tauto. }
  assert (Hp : fst <$> list_find (titleIncludes (toLowerCase q1)) notes1
               = fst <$> list_find (titleIncludes (toLowerCase q2)) notes2).
  { apply list_find_same_index. eapply Forall2_impl; [exact Hn|].
    intros a b Hab. unfold titleIncludes, sameTitle in *. rewrite Hab, Hq. tauto. }
  destruct (list_find (titleIs (toLowerCase q1)) notes1) as [[i x]|],
           (list_find (titleIs (toLowerCase q2)) notes2) as [[j y]|];
    simpl in *; try discriminate; [exact He|exact Hp].
Qed.

(** X8. The search ignores case, in the query and in the titles: on two
    lists whose titles agree up to case, two queries that agree up to
    case are resolved to the same index by [findNoteByTitle], and the
    scan of [deleteNote] stops at the same index; on one list the two
    queries find the very same note, as does the query in lower case. *)
Theorem search_ignores_case notes1 notes2 q1 q2 :
  Forall2 (fun a b => sameTitle (title a) (title b)) notes1 notes2 ->
  sameTitle q1 q2 ->
  fst <$> findNoteByTitle notes1 q1 = fst <$> findNoteByTitle notes2 q2
  /\ fst <$> list_find (titleIsOrIncludes (toLowerCase q1)) notes1
     = fst <$> list_find (titleIsOrIncludes (toLowerCase q2)) notes2
  /\ findNoteByTitle notes1 q1 = findNoteByTitle notes1 q2
  /\ findNoteByTitle notes1 (toLowerCase q1) = findNoteByTitle notes1 q1.
Proof.
  intros Hn Hq. split; [now apply findNoteByTitle_same_index|].
  split; [|split].
  - apply list_find_same_index. eapply Forall2_impl; [exact Hn|].
    intros a b Hab.
    unfold titleIsOrIncludes, titleIs, titleIncludes, sameTitle in *.
    rewrite Hab, Hq. tauto.
  - unfold findNoteByTitle. unfold sameTitle in Hq. now rewrite Hq.
  - unfold findNoteByTitle. now rewrite toLowerCase_toLowerCase.
Qed.

Lemma search_ignores_case_witness :
  fst <$> findNoteByTitle [mkNote "Groceries" "milk" "t0"] "groceries"
  = fst <$> findNoteByTitle [mkNote "GROCERIES" "tea" "t1"] "GROCERIES"
  /\ findNoteByTitle [mkNote "Groceries" "milk" "t0"] "groc"
     = findNoteByTitle [mkNote "Groceries" "milk" "t0"] "GROC".
Proof.
  split.
  - apply (search_ignores_case [mkNote "Groceries" "milk" "t0"]
             [mkNote "GROCERIES" "tea" "t1"] "groceries" "GROCERIES").
    + repeat constructor.
    + reflexivity.
  - apply (search_ignores_case [mkNote "Groceries" "milk" "t0"]
             [mkNote "Groceries" "milk" "t0"] "groc" "GROC").
    + repeat constructor.
    + reflexivity.
Defined.

(** X9. When the titles differ up to case, as they do in every state
    reached from the empty repository, each note is what
    [findNoteByTitle] finds for its own title, in any case: no other
    note's title can get in the way. *)
Theorem note_found_by_its_title notes i n q :
  uniqueTitles notes ->
  notes !! i = Some n ->
  sameTitle q (title n) ->
  findNoteByTitle notes q = Some (i, n).
Proof.
  intros Hu Hi Hq. apply findNoteByTitle_exact. split; [exact Hi|].
  split; [symmetry; exact Hq|].
  intros j m Hj Hlt Hm. unfold uniqueTitles in Hu.
  assert (i = j); [|lia].
  eapply (NoDup_lookup _ i j (toLowerCase (title n)) Hu).
  - rewrite list_lookup_fmap, Hi. reflexivity.
  - rewrite list_lookup_fmap, Hj. simpl. f_equal.
    unfold sameTitle in *. congruence.
Qed.

Lemma note_found_by_its_title_witness :
  findNoteByTitle [shoppingList "t0"; shopping "t1"] "SHOPPING"
  = Some (1, shopping "t1").
Proof.
  apply (note_found_by_its_title [shoppingList "t0"; shopping "t1"] 1
           (shopping "t1") "SHOPPING").
  - unfold uniqueTitles. simpl. apply NoDup_cons. split; [|apply NoDup_singleton].
    intros Hin. apply list_elem_of_singleton in Hin. discriminate Hin.
  - reflexivity.
  - reflexivity.
Defined.


(** ** How the operations compose *)

Lemma alter_body_titles b i (notes : list Note) :
  Forall2 (fun a a' => sameTitle (title a) (title a'))
          (alter (set_body b) i notes) notes.
Proof.
  revert i. induction notes as [|n notes IH]; intros i; [constructor|].
  destruct i as [|i]; simpl; constructor; try reflexivity.
  - apply Forall2_same_length_lookup. split; [reflexivity|].
    intros j x y Hx Hy. congruence.
  - apply IH.
Qed.

(** X10. After an [updateNote] that reports success, [findNoteByTitle]
    with the same query resolves the same index, and the note there is
    the note found before with the new body. *)
Theorem update_then_find notes w notes' w' :
  updateNote notes w = Return notes' w' ->
  last (output w') = Some Updated ->
  exists rawQuery rawBody rest i note,
    input w = rawQuery :: rawBody :: rest
    /\ findNoteByTitle notes (trim rawQuery) = Some (i, note)
    /\ findNoteByTitle notes' (trim rawQuery)
       = Some (i, mkNote (title note) (trim rawBody) (time_added note)).
Proof.
  intros H Hlast. apply updateNote_Return in H.
  destruct H as [line rest Hin Hb|line rest Hin Hb Hf
                |line line2 rest index note Hin Hb Hf Hb2
                |line line2 rest index note Hin Hb Hf Hb2 Hw];
    simpl in Hlast; rewrite last_snoc in Hlast; try discriminate.
  exists line, line2, rest, index, note.
  split; [exact Hin|]. split; [exact Hf|].
  pose proof (findNoteByTitle_same_index _ _ (trim line) (trim line)
                (alter_body_titles (trim line2) index notes) eq_refl) as Hidx.
  rewrite Hf in Hidx. simpl in Hidx.
  destruct (findNoteByTitle (alter (set_body (trim line2)) index notes)
                            (trim line)) as [[j x]|] eqn:Hf';
    [|discriminate].
  simpl in Hidx. injection Hidx as ->.
  apply findNoteByTitle_Some in Hf' as [Hl _].
  apply findNoteByTitle_Some in Hf as [Hl0 _].
  rewrite list_lookup_alter_eq, Hl0 in Hl. simpl in Hl.
  injection Hl as <-. reflexivity.
Qed.

Lemma update_then_find_witness :
  exists rawQuery rawBody rest i note,
    input (freshWorld ["shop"; " oat milk "; "2"]) = rawQuery :: rawBody :: rest
    /\ findNoteByTitle [tripPlan "t0"; shopping "t1"] (trim rawQuery)
       = Some (i, note)
    /\ findNoteByTitle [tripPlan "t0"; mkNote "Shopping" "oat milk" "t1"]
                       (trim rawQuery)
       = Some (i, mkNote (title note) (trim rawBody) (time_added note)).
Proof.
  apply (update_then_find [tripPlan "t0"; shopping "t1"]
           (freshWorld ["shop"; " oat milk "; "2"])
           [tripPlan "t0"; mkNote "Shopping" "oat milk" "t1"]
           {| disk := Some (Readable (JSON_stringify
                 [tripPlan "t0"; mkNote "Shopping" "oat milk" "t1"]));
              writable := true; input := ["2"];
              output := [Asked AskPartToUpdate; Asked AskNewBody; Updated] |}).
  - vm_compute. reflexivity.
  - reflexivity.
Defined.

(** X11. A [deleteNote] that reports a deletion has removed exactly one
    note, the first one in the list whose title contains the query up to
    case, and reports that note's title; the notes before it keep their
    index, the notes after it move down by one, and the file mirrors the
    result. *)
Theorem deleteNote_removes_one notes w notes' w' ttl :
  deleteNote notes w = Return notes' w' ->
  last (output w') = Some (Deleted ttl) ->
  exists rawQuery rest i n,
    input w = rawQuery :: rest /\ input w' = rest
    /\ trim rawQuery <> ""
    /\ firstWith (fun x => titleContains (title x) (trim rawQuery)) notes i n
    /\ ttl = title n
    /\ notes' = delete i notes
    /\ length notes = S (length notes')
    /\ (forall j, j < i -> notes' !! j = notes !! j)
    /\ (forall j, i <= j -> notes' !! j = notes !! S j)
    /\ mirrored notes' w'.
Proof.
  intros H Hlast. apply deleteNote_Return in H.
  destruct H as [line rest Hin Hb|line rest Hin Hb Hf
                |line rest index deleted Hin Hb Hf Hw];
    simpl in Hlast; rewrite last_snoc in Hlast; try discriminate.
  injection Hlast as <-.
  exists line, rest, index, deleted.
  split; [exact Hin|]. split; [reflexivity|]. split; [exact Hb|].
  rewrite deleteNote_scan in Hf.
  pose proof (proj1 (list_find_firstWith _ _ _ _) Hf) as Hfirst.
  split; [exact Hfirst|]. split; [reflexivity|]. split; [reflexivity|].
  destruct Hfirst as (Hl & _ & _).
  split; [|split; [|split]].
  - pose proof (lookup_lt_Some _ _ _ Hl).
    rewrite length_delete by eauto. lia.
  - intros j Hj. now apply list_lookup_delete_lt.
  - intros j Hj. now apply list_lookup_delete_ge.
  - reflexivity.
Qed.

Lemma deleteNote_removes_one_witness :
  exists rawQuery rest i n,
    input (freshWorld [" LIST "; "2"]) = rawQuery :: rest /\ ["2"] = rest
    /\ trim rawQuery <> ""
    /\ firstWith (fun x => titleContains (title x) (trim rawQuery))
                 [shopping "t0"; shoppingList "t1"; tripPlan "t2"] i n
    /\ "Shopping List" = title n
    /\ [shopping "t0"; tripPlan "t2"]
       = delete i [shopping "t0"; shoppingList "t1"; tripPlan "t2"]
    /\ length [shopping "t0"; shoppingList "t1"; tripPlan "t2"]
       = S (length [shopping "t0"; tripPlan "t2"])
    /\ (forall j, j < i ->
        [shopping "t0"; tripPlan "t2"] !! j
        = [shopping "t0"; shoppingList "t1"; tripPlan "t2"] !! j)
    /\ (forall j, i <= j ->
        [shopping "t0"; tripPlan "t2"] !! j
        = [shopping "t0"; shoppingList "t1"; tripPlan "t2"] !! S j)
    /\ mirrored [shopping "t0"; tripPlan "t2"]
         {| disk := Some (Readable (JSON_stringify
               [shopping "t0"; tripPlan "t2"]));
            writable := true; input := ["2"];
            output := [Asked AskPartToDelete; Deleted "Shopping List"] |}.
Proof.
  apply (deleteNote_removes_one
           [shopping "t0"; shoppingList "t1"; tripPlan "t2"]
           (freshWorld [" LIST "; "2"]) [shopping "t0"; tripPlan "t2"]
           {| disk := Some (Readable (JSON_stringify
                 [shopping "t0"; tripPlan "t2"]));
              writable := true; input := ["2"];
              output := [Asked AskPartToDelete; Deleted "Shopping List"] |}
           "Shopping List").
  - vm_compute. reflexivity.
  - reflexivity.
Defined.

(** X12. [deleteNote] removes the very note [findNoteByTitle] resolves
    whenever no title equals the query up to case, or, more generally,
    whenever no note before the resolved one contains the query. *)
Theorem deleteNote_agrees_with_find notes w rawQuery rest i n :
  input w = rawQuery :: rest ->
  trim rawQuery <> "" ->
  writable w = true ->
  findNoteByTitle notes (trim rawQuery) = Some (i, n) ->
  (forall x, x ∈ notes -> ~ sameTitle (title x) (trim rawQuery))
  \/ (forall j x, notes !! j = Some x -> j < i ->
      ~ titleContains (title x) (trim rawQuery)) ->
  exists w',
    deleteNote notes w = Return (delete i notes) w'
    /\ last (output w') = Some (Deleted (title n))
    /\ mirrored (delete i notes) w'.
Proof.
  intros Hin Hb Hw Hf Hcond.
  assert (Hscan : list_find (titleIsOrIncludes (toLowerCase (trim rawQuery)))
                            notes = Some (i, n)).
  { rewrite deleteNote_scan. destruct Hcond as [Hno|Hbefore].
    - now rewrite <- (findNoteByTitle_partial _ _ Hno).
    - apply findNoteByTitle_Some in Hf as [Hl Hc].
      apply list_find_Some. split; [exact Hl|]. split; [exact Hc|].
      intros j y Hj Hlt. exact (Hbefore j y Hj Hlt). }
  eexists. split.
  - apply deleteNote_Return. eapply delete_done; eassumption.
  - split; [apply last_snoc|reflexivity].
Qed.

Lemma deleteNote_agrees_with_find_witness :
  exists w',
    deleteNote [shopping "t0"; shoppingList "t1"] (freshWorld ["shopping"])
    = Return (delete 0 [shopping "t0"; shoppingList "t1"]) w'
    /\ last (output w') = Some (Deleted "Shopping")
    /\ mirrored (delete 0 [shopping "t0"; shoppingList "t1"]) w'.
Proof.
  apply (deleteNote_agrees_with_find [shopping "t0"; shoppingList "t1"]
           (freshWorld ["shopping"]) "shopping" [] 0 (shopping "t0")).
  - reflexivity.
  - discriminate.
  - reflexivity.
  - reflexivity.
  - right. intros j x _ Hlt. lia.
Defined.

Lemma toLowerCase_empty s : toLowerCase s = "" -> s = "".
Proof. destruct s; [reflexivity|discriminate]. Qed.

(** X13. Adding a note and then deleting by its title, in any case,
    gives back the notes there were before, written to the file,
    provided none of them has a title that contains the new title up to
    case. *)
Theorem add_then_delete notes now w0 notes1 w1 :
  addNote notes now w0 = Return notes1 w1 ->
  length notes1 = S (length notes) ->
  exists added,
    notes1 = notes ++ [added]
    /\ forall w rawQuery rest,
         input w = rawQuery :: rest ->
         sameTitle (trim rawQuery) (title added) ->
         writable w = true ->
         (forall x, x ∈ notes -> ~ titleContains (title x) (title added)) ->
         exists w',
           deleteNote notes1 w = Return notes w'
           /\ last (output w') = Some (Deleted (title added))
           /\ mirrored notes w'.
Proof.
  intros Hadd Hlen.
  apply addNote_Return in Hadd
    as [[-> _]|(ttl & bdy & [Hne _] & _ & _ & -> & _)]; [lia|].
  exists (mkNote ttl bdy now). split; [reflexivity|].
  intros w rawQuery rest Hin Hq Hw Hnone. simpl in Hq, Hnone.
  assert (Hb : trim rawQuery <> "").
  { intros He. rewrite He in Hq. unfold sameTitle in Hq. simpl in Hq.
    symmetry in Hq. apply toLowerCase_empty in Hq. contradiction. }
  assert (Hscan : list_find (titleIsOrIncludes (toLowerCase (trim rawQuery)))
                            (notes ++ [mkNote ttl bdy now])
                  = Some (length notes, mkNote ttl bdy now)).
  { rewrite deleteNote_scan. apply list_find_Some.
    split; [apply list_lookup_middle; reflexivity|]. split.
    - unfold titleIncludes. simpl. unfold sameTitle in Hq. rewrite Hq.
      apply includes_refl.
    - intros j y Hj Hlt. rewrite lookup_app_l in Hj by exact Hlt.
      unfold titleIncludes. unfold sameTitle in Hq. rewrite Hq.
      apply Hnone. eapply list_elem_of_lookup_2. exact Hj. }
  pose proof (delete_done _ w rawQuery rest _ _ Hin Hb Hscan Hw) as Hdone.
  rewrite (delete_middle notes [] (mkNote ttl bdy now)), app_nil_r in Hdone.
  eexists. split; [apply deleteNote_Return; exact Hdone|].
  split; [apply last_snoc|reflexivity].
Qed.

Lemma add_then_delete_witness :
  exists added,
    [shopping "t0"; mkNote "Trip Plan" "pack bags" "t1"]
    = [shopping "t0"] ++ [added]
    /\ forall w rawQuery rest,
         input w = rawQuery :: rest ->
         sameTitle (trim rawQuery) (title added) ->
         writable w = true ->
         (forall x, x ∈ [shopping "t0"] ->
                    ~ titleContains (title x) (title added)) ->
         exists w',
           deleteNote [shopping "t0"; mkNote "Trip Plan" "pack bags" "t1"] w
           = Return [shopping "t0"] w'
           /\ last (output w') = Some (Deleted (title added))
           /\ mirrored [shopping "t0"] w'.
Proof.
  apply (add_then_delete [shopping "t0"] "t1"
           (freshWorld [" Trip Plan"; "pack bags "])
           [shopping "t0"; mkNote "Trip Plan" "pack bags" "t1"]
           {| disk := Some (Readable (JSON_stringify
                 [shopping "t0"; mkNote "Trip Plan" "pack bags" "t1"]));
              writable := true; input := [];
              output := [Asked AskTitle; Asked AskBody; Added] |}).
  - vm_compute. reflexivity.
  - reflexivity.
Defined.

(** X14. No operation changes the title or the time stamp of a note, or
    the order of the notes: the titles and time stamps after a returning
    [addNote], [updateNote] or [deleteNote] are those before, with one
    pair added at the end or one pair taken out. *)
Theorem titles_and_times_are_kept notes notes' :
  step notes notes' ->
  stamp <$> notes' = stamp <$> notes
  \/ (exists n, stamp <$> notes' = (stamp <$> notes) ++ [stamp n])
  \/ (exists i, i < length notes
                /\ stamp <$> notes' = delete i (stamp <$> notes)).
Proof.
  intros [now w w' H|w w' H|w w' H].
  - apply addNote_Return in H as [[-> _]|(ttl & bdy & _ & _ & _ & -> & _)];
      [left; reflexivity|].
    right. left. exists (mkNote ttl bdy now). rewrite fmap_app. reflexivity.
  - left. apply updateNote_Return in H. destruct H; try reflexivity.
    rewrite (list_fmap_alter stamp (set_body (trim line2)) id).
    + apply list_alter_id. reflexivity.
    + apply Forall_forall. reflexivity.
  - apply deleteNote_Return in H. destruct H as [| |line rest index n Hin Hb Hf Hw];
      [left; reflexivity..|].
    right. right. exists index. apply list_find_Some in Hf as (Hl & _).
    split; [eapply lookup_lt_Some; exact Hl|apply list_fmap_delete].
Qed.

Lemma titles_and_times_are_kept_witness :
  stamp <$> [tripPlan "t0"; mkNote "Shopping" "oat milk" "t1"]
  = stamp <$> [tripPlan "t0"; shopping "t1"]
  \/ (exists n, stamp <$> [tripPlan "t0"; mkNote "Shopping" "oat milk" "t1"]
                = (stamp <$> [tripPlan "t0"; shopping "t1"]) ++ [stamp n])
  \/ (exists i, i < length [tripPlan "t0"; shopping "t1"]
                /\ stamp <$> [tripPlan "t0"; mkNote "Shopping" "oat milk" "t1"]
                   = delete i (stamp <$> [tripPlan "t0"; shopping "t1"])).
Proof.
  apply (titles_and_times_are_kept [tripPlan "t0"; shopping "t1"]
           [tripPlan "t0"; mkNote "Shopping" "oat milk" "t1"]).
  eapply (step_update _ _ (freshWorld ["SHOP"; " oat milk "])).
  vm_compute. reflexivity.
Defined.


(** ** The menu, the title prompt and the listing *)

(** X15. In a round of the menu, a line that is "6" after trimming ends
    the process with status 0 right after the goodbye, and a line that
    is none of "1" to "6" after trimming is reported as an invalid
    choice; either way exactly that line is used up, and the notes and
    the notes file stay as they are. *)
Theorem mainLoopBody_exit_and_invalid notes now w line rest :
  input w = line :: rest ->
  (trim line = "6" ->
   exists w', mainLoopBody notes now w = Exit 0 w'
              /\ last (output w') = Some Goodbye
              /\ disk w' = disk w /\ input w' = rest)
  /\ (trim line ∉ ["1"; "2"; "3"; "4"; "5"; "6"] ->
      exists w', mainLoopBody notes now w = Return notes w'
                 /\ last (output w') = Some InvalidChoice
                 /\ disk w' = disk w /\ input w' = rest).
Proof.
  intros Hin. split.
  - intros Hc. eexists. split.
    + unfold mainLoopBody, mbind, M_bind, fmap, M_fmap, question. simpl.
      rewrite Hin, Hc. reflexivity.
    + simpl. split; [apply last_snoc|]. split; reflexivity.
  - intros Hc. eexists. split.
    + unfold mainLoopBody, mbind, M_bind, fmap, M_fmap, question. simpl.
      rewrite Hin. simpl.
      repeat (rewrite decide_False; [|intros He; apply Hc; rewrite He;
                                      apply list_elem_of_In; simpl; tauto]).
      reflexivity.
    + simpl. split; [apply last_snoc|]. split; reflexivity.
Qed.

Lemma mainLoopBody_exit_and_invalid_witness :
  exists w', mainLoopBody [shopping "t0"] "t1" (freshWorld [" 7"; "6"])
             = Return [shopping "t0"] w'
             /\ last (output w') = Some InvalidChoice
             /\ disk w' = disk (freshWorld [" 7"; "6"]) /\ input w' = ["6"].
Proof.
  apply (proj2 (mainLoopBody_exit_and_invalid [shopping "t0"] "t1"
                  (freshWorld [" 7"; "6"]) " 7" ["6"] eq_refl)).
  intros Hin. repeat (apply elem_of_cons in Hin as [Hin|Hin]; [discriminate Hin|]).
  apply elem_of_nil in Hin. exact Hin.
Defined.

Lemma questionUntilFilled_run p m blanks : forall w,
  Forall (fun l => trim l = "") blanks ->
  (forall line rest,
      input w = blanks ++ line :: rest -> trim line <> "" ->
      questionUntilFilled p m w
      = Return (trim line)
          {| disk := disk w; writable := writable w; input := rest;
             output := output w ++ refusals p m blanks ++ [Asked p] |})
  /\ (input w = blanks ->
      questionUntilFilled p m w
      = Blocked
          {| disk := disk w; writable := writable w; input := [];
             output := output w ++ refusals p m blanks ++ [Asked p] |}).
Proof.
  induction blanks as [|b blanks IH]; intros w Hbl.
  - split.
    + intros line rest Hin Hne.
      rewrite (questionUntilFilled_filled p m w line rest Hin Hne). reflexivity.
    + intros Hin. unfold questionUntilFilled. rewrite Hin. simpl.
      unfold say. rewrite Hin. reflexivity.
  - apply Forall_cons in Hbl as [Hb Hbl].
    specialize (IH (say m (with_input blanks (say (Asked p) w))) Hbl) as IH0.
    split.
    + intros line rest Hin Hne.
      rewrite (questionUntilFilled_blank p m w b (blanks ++ line :: rest) Hin Hb).
      specialize (IH (say m (with_input (blanks ++ line :: rest)
                                        (say (Asked p) w))) Hbl).
      rewrite (proj1 IH line rest eq_refl Hne). simpl.
      unfold refusals. simpl. now rewrite <- !app_assoc.
    + intros Hin.
      rewrite (questionUntilFilled_blank p m w b blanks Hin Hb).
      rewrite (proj2 IH0 eq_refl). simpl.
      unfold refusals. simpl. now rewrite <- !app_assoc.
Qed.

(** X16. [getValidatedTitle] returns the first line typed that is not
    blank after trimming, trimmed: a title that is not empty and has no
    white space at either end.  For each blank line before it the prompt
    and the message are printed once; nothing else changes.  When every
    line typed is blank it waits for more. *)
Theorem getValidatedTitle_first_filled w blanks :
  Forall (fun l => trim l = "") blanks ->
  (forall line rest,
      input w = blanks ++ line :: rest -> trim line <> "" ->
      getValidatedTitle w
      = Return (trim line)
          {| disk := disk w; writable := writable w; input := rest;
             output := output w
                       ++ refusals AskANoteTitle TitleEmptyPleaseEnter blanks
                       ++ [Asked AskANoteTitle] |}
      /\ tidy (trim line))
  /\ (input w = blanks ->
      getValidatedTitle w
      = Blocked
          {| disk := disk w; writable := writable w; input := [];
             output := output w
                       ++ refusals AskANoteTitle TitleEmptyPleaseEnter blanks
                       ++ [Asked AskANoteTitle] |}).
Proof.
  intros Hbl.
  destruct (questionUntilFilled_run AskANoteTitle TitleEmptyPleaseEnter
              blanks w Hbl) as [Hret Hblock].
  split; [|exact Hblock].
  intros line rest Hin Hne. split; [exact (Hret line rest Hin Hne)|].
  apply entered_tidy. split; eauto.
Qed.

Lemma getValidatedTitle_first_filled_witness :
  getValidatedTitle (freshWorld ["  "; ""; "  Trip Plan "; "x"])
  = Return "Trip Plan"
      {| disk := None; writable := true; input := ["x"];
         output := [Asked AskANoteTitle; TitleEmptyPleaseEnter;
                    Asked AskANoteTitle; TitleEmptyPleaseEnter;
                    Asked AskANoteTitle] |}
  /\ tidy "Trip Plan".
Proof.
  apply (proj1 (getValidatedTitle_first_filled
                  (freshWorld ["  "; ""; "  Trip Plan "; "x"]) ["  "; ""]
                  ltac:(repeat constructor))
               "  Trip Plan " ["x"]).
  - reflexivity.
  - discriminate.
Defined.

Lemma listed_lookup (g : nat -> nat) (notes : list Note) : forall i n,
  notes !! i = Some n ->
  let items :=
    concat (imap (fun j note => [ItemTitle (g j) (title note);
                                 ItemBody (body note);
                                 ItemAdded (time_added note)]) notes) in
  items !! (3 * i) = Some (ItemTitle (g i) (title n))
  /\ items !! (3 * i + 1) = Some (ItemBody (body n))
  /\ items !! (3 * i + 2) = Some (ItemAdded (time_added n)).
Proof.
  revert g. induction notes as [|x notes IH]; intros g i n Hi; [discriminate|].
  destruct i as [|i].
  - injection Hi as ->. simpl. repeat split.
  - simpl in Hi. specialize (IH (fun j => g (S j)) i n Hi).
    replace (3 * S i) with (S (S (S (3 * i)))) by lia. exact IH.
Qed.

Lemma listed_length (g : nat -> nat) (notes : list Note) :
  length (concat (imap (fun j note => [ItemTitle (g j) (title note);
                                       ItemBody (body note);
                                       ItemAdded (time_added note)]) notes))
  = 3 * length notes.
Proof.
  revert g. induction notes as [|x notes IH]; intros g; [reflexivity|].
  transitivity
    (3 + length (concat (imap (fun j note => [ItemTitle (g (S j)) (title note);
                                              ItemBody (body note);
                                              ItemAdded (time_added note)])
                              notes))); [reflexivity|].
  rewrite (IH (fun j => g (S j))). simpl. lia.
Qed.

(** X17. [listAllNotes] always returns, using up no line and leaving
    the notes file alone.  For no notes it prints the one line "No notes
    found"; otherwise it prints a header and then, for the note at each
    index [i], three lines in the order of the list: its title numbered
    [i + 1], its body and its time stamp. *)
Theorem listAllNotes_lists_every_note notes w :
  exists w',
    listAllNotes notes w = Return tt w'
    /\ disk w' = disk w /\ input w' = input w
    /\ (notes = [] -> output w' = output w ++ [NoNotes])
    /\ (notes <> [] ->
        length (output w') = length (output w) + 1 + 3 * length notes
        /\ output w' !! length (output w) = Some AllNotes
        /\ forall i n, notes !! i = Some n ->
             output w' !! (length (output w) + 1 + 3 * i)
             = Some (ItemTitle (i + 1) (title n))
             /\ output w' !! (length (output w) + 1 + 3 * i + 1)
                = Some (ItemBody (body n))
             /\ output w' !! (length (output w) + 1 + 3 * i + 2)
                = Some (ItemAdded (time_added n))).
Proof.
  unfold listAllNotes. destruct (decide (length notes = 0)) as [H0|H0].
  - exists (say NoNotes w). split; [reflexivity|]. split; [reflexivity|].
    split; [reflexivity|]. split; [reflexivity|].
    intros Hne. destruct notes; [contradiction|discriminate].
  - unfold mbind, M_bind, log.
    set (items := concat (imap _ notes)).
    destruct (logAll_Return items (say AllNotes w))
      as (w' & -> & Hd & _ & Hi & Ho).
    exists w'. split; [reflexivity|]. split; [exact Hd|]. split; [exact Hi|].
    split; [intros ->; contradiction|]. intros _.
    simpl in Ho. rewrite Ho. split; [|split].
    + rewrite !length_app. unfold items.
      rewrite (listed_length (fun j => j + 1)). simpl. lia.
    + rewrite <- app_assoc. apply list_lookup_middle. reflexivity.
    + intros i n Hn.
      pose proof (listed_lookup (fun j => j + 1) notes i n Hn) as (H1 & H2 & H3).
      assert (Hlen : length (output w ++ [AllNotes]) = length (output w) + 1)
        by (rewrite length_app; reflexivity).
      split; [|split].
      * rewrite lookup_app_r by lia.
        replace (length (output w) + 1 + 3 * i - length (output w ++ [AllNotes]))
          with (3 * i) by lia. exact H1.
      * rewrite lookup_app_r by lia.
        replace (length (output w) + 1 + 3 * i + 1
                 - length (output w ++ [AllNotes])) with (3 * i + 1) by lia.
        exact H2.
      * rewrite lookup_app_r by lia.
        replace (length (output w) + 1 + 3 * i + 2
                 - length (output w ++ [AllNotes])) with (3 * i + 2) by lia.
        exact H3.
Qed.

Lemma listAllNotes_lists_every_note_witness :
  exists w',
    listAllNotes [shopping "t0"; tripPlan "t1"] (freshWorld ["6"])
    = Return tt w'
    /\ length (output w') = 7
    /\ output w' !! 4 = Some (ItemTitle 2 "Trip Plan").
Proof.
  destruct (listAllNotes_lists_every_note [shopping "t0"; tripPlan "t1"]
              (freshWorld ["6"])) as (w' & Hrun & _ & _ & _ & Hsome).
  destruct (Hsome ltac:(discriminate)) as (Hlen & _ & Hitems).
  exists w'. split; [exact Hrun|]. split; [exact Hlen|].
  exact (proj1 (Hitems 1 (tripPlan "t1") eq_refl)).
Defined.
